(** * The email agent route: analyze and compose pipelines

    A shallow embedding of the request handler of the email agent
    (the [POST] function and its helpers) and the properties its
    specification states about it.

    Strings are JavaScript strings: finite sequences of UTF-16 code units.
    A code unit is a number ([N]); a string is a list of code units, so
    [length] is the JavaScript [.length] and [firstn]/[skipn] are [slice].
    Case conversion is the Unicode one of JavaScript, by code point and
    from the mapping tables of the Unicode character database; matching
    under the i flag compares code units up to the case of the letters
    a-z, as a pattern without the u flag does.  The regular expressions of the
    route are written in a small abstract syntax and run by a backtracking
    matcher with the priorities of the JavaScript one (leftmost start,
    alternatives left to right, greedy repetition). *)

From Stdlib Require Import List NArith Arith Bool Lia String Ascii.
From Stdlib Require Import Numbers.DecimalString.
Import ListNotations.

(* ================================================================== *)
(** ** JavaScript strings *)

Module Js.

Definition char := N.
Definition str := list char.

(** A literal of the source, code unit by code unit (ASCII literals). *)
Definition lit (s : string) : str := map N_of_ascii (list_ascii_of_string s).

Definition ch (a : ascii) : char := N_of_ascii a.

Arguments lit s%_string.
Arguments ch a%_char.

(** The two characters of the route outside ASCII. *)
Definition bullet : char := 8226%N.   (* U+2022 *)
Definition emdash : char := 8212%N.   (* U+2014 *)

Definition inRange (lo hi c : N) : bool := (N.leb lo c && N.leb c hi)%bool.

(** [\s], which is also the set [trim] strips: WhiteSpace and LineTerminator. *)
Definition isSpace (c : char) : bool :=
  (inRange 9 13 c || N.eqb c 32 || N.eqb c 160 || N.eqb c 5760
   || inRange 8192 8202 c || N.eqb c 8232 || N.eqb c 8233 || N.eqb c 8239
   || N.eqb c 8287 || N.eqb c 12288 || N.eqb c 65279)%bool.

Definition isDigit (c : char) : bool := inRange 48 57 c.
Definition isUpperAZ (c : char) : bool := inRange 65 90 c.
Definition isLowerAZ (c : char) : bool := inRange 97 122 c.

(** [\w] *)
Definition isWord (c : char) : bool :=
  (isUpperAZ c || isLowerAZ c || isDigit c || N.eqb c 95)%bool.

(** *** Case conversion

    [toLowerCase] and [toUpperCase] convert code point by code point with
    the full case mappings of the Unicode character database (version 14):
    a surrogate pair is one code point, a lone surrogate is left as it is,
    one code point may become several code units, and a capital sigma at
    the end of a word becomes the final small sigma.  The tables are kept
    as ranges: a first code point, a count, a stride and the image of the
    first code point. *)

Definition caseRange := (N * N * N * N)%type.

Fixpoint expandRange (first : N) (count : nat) (stride image : N)
    : list (N * list N) :=
  match count with
  | O => []
  | S k => (first, [image]) :: expandRange (first + stride) k stride (image + stride)
  end.

Definition expand (ranges : list caseRange) : list (N * list N) :=
  flat_map (fun r => match r with
                     | (first, count, stride, image) =>
                         expandRange first (N.to_nat count) stride image
                     end) ranges.

Fixpoint assoc (c : N) (table : list (N * list N)) : option (list N) :=
  match table with
  | [] => None
  | (k, v) :: rest => if N.eqb c k then Some v else assoc c rest
  end.

Definition inRanges (ranges : list (N * N)) (c : N) : bool :=
  existsb (fun r => inRange (fst r) (snd r) c) ranges.

(** Lower case of the code points below U+10000. *)
Definition lowerBmpRanges : list caseRange :=
  [
   (65, 26, 1, 97); (192, 23, 1, 224); (216, 7, 1, 248); (256, 24, 2, 257);
   (306, 3, 2, 307); (313, 8, 2, 314); (330, 23, 2, 331); (376, 1, 1, 255);
   (377, 3, 2, 378); (385, 1, 1, 595); (386, 2, 2, 387); (390, 1, 1, 596);
   (391, 1, 1, 392); (393, 2, 1, 598); (395, 1, 1, 396); (398, 1, 1, 477);
   (399, 1, 1, 601); (400, 1, 1, 603); (401, 1, 1, 402); (403, 1, 1, 608);
   (404, 1, 1, 611); (406, 1, 1, 617); (407, 1, 1, 616); (408, 1, 1, 409);
   (412, 1, 1, 623); (413, 1, 1, 626); (415, 1, 1, 629); (416, 3, 2, 417);
   (422, 1, 1, 640); (423, 1, 1, 424); (425, 1, 1, 643); (428, 1, 1, 429);
   (430, 1, 1, 648); (431, 1, 1, 432); (433, 2, 1, 650); (435, 2, 2, 436);
   (439, 1, 1, 658); (440, 1, 1, 441); (444, 1, 1, 445); (452, 1, 1, 454);
   (453, 1, 1, 454); (455, 1, 1, 457); (456, 1, 1, 457); (458, 1, 1, 460);
   (459, 9, 2, 460); (478, 9, 2, 479); (497, 1, 1, 499); (498, 2, 2, 499);
   (502, 1, 1, 405); (503, 1, 1, 447); (504, 20, 2, 505); (544, 1, 1, 414);
   (546, 9, 2, 547); (570, 1, 1, 11365); (571, 1, 1, 572); (573, 1, 1, 410);
   (574, 1, 1, 11366); (577, 1, 1, 578); (579, 1, 1, 384); (580, 1, 1, 649);
   (581, 1, 1, 652); (582, 5, 2, 583); (880, 2, 2, 881); (886, 1, 1, 887);
   (895, 1, 1, 1011); (902, 1, 1, 940); (904, 3, 1, 941); (908, 1, 1, 972);
   (910, 2, 1, 973); (913, 17, 1, 945); (931, 9, 1, 963); (975, 1, 1, 983);
   (984, 12, 2, 985); (1012, 1, 1, 952); (1015, 1, 1, 1016); (1017, 1, 1, 1010);
   (1018, 1, 1, 1019); (1021, 3, 1, 891); (1024, 16, 1, 1104); (1040, 32, 1, 1072);
   (1120, 17, 2, 1121); (1162, 27, 2, 1163); (1216, 1, 1, 1231); (1217, 7, 2, 1218);
   (1232, 48, 2, 1233); (1329, 38, 1, 1377); (4256, 38, 1, 11520); (4295, 1, 1, 11559);
   (4301, 1, 1, 11565); (5024, 80, 1, 43888); (5104, 6, 1, 5112); (7312, 43, 1, 4304);
   (7357, 3, 1, 4349); (7680, 75, 2, 7681); (7838, 1, 1, 223); (7840, 48, 2, 7841);
   (7944, 8, 1, 7936); (7960, 6, 1, 7952); (7976, 8, 1, 7968); (7992, 8, 1, 7984);
   (8008, 6, 1, 8000); (8025, 4, 2, 8017); (8040, 8, 1, 8032); (8072, 8, 1, 8064);
   (8088, 8, 1, 8080); (8104, 8, 1, 8096); (8120, 2, 1, 8112); (8122, 2, 1, 8048);
   (8124, 1, 1, 8115); (8136, 4, 1, 8050); (8140, 1, 1, 8131); (8152, 2, 1, 8144);
   (8154, 2, 1, 8054); (8168, 2, 1, 8160); (8170, 2, 1, 8058); (8172, 1, 1, 8165);
   (8184, 2, 1, 8056); (8186, 2, 1, 8060); (8188, 1, 1, 8179); (8486, 1, 1, 969);
   (8490, 1, 1, 107); (8491, 1, 1, 229); (8498, 1, 1, 8526); (8544, 16, 1, 8560);
   (8579, 1, 1, 8580); (9398, 26, 1, 9424); (11264, 48, 1, 11312); (11360, 1, 1, 11361);
   (11362, 1, 1, 619); (11363, 1, 1, 7549); (11364, 1, 1, 637); (11367, 3, 2, 11368);
   (11373, 1, 1, 593); (11374, 1, 1, 625); (11375, 1, 1, 592); (11376, 1, 1, 594);
   (11378, 1, 1, 11379); (11381, 1, 1, 11382); (11390, 2, 1, 575); (11392, 50, 2, 11393);
   (11499, 2, 2, 11500); (11506, 1, 1, 11507); (42560, 23, 2, 42561); (42624, 14, 2, 42625);
   (42786, 7, 2, 42787); (42802, 31, 2, 42803); (42873, 2, 2, 42874); (42877, 1, 1, 7545);
   (42878, 5, 2, 42879); (42891, 1, 1, 42892); (42893, 1, 1, 613); (42896, 2, 2, 42897);
   (42902, 10, 2, 42903); (42922, 1, 1, 614); (42923, 1, 1, 604); (42924, 1, 1, 609);
   (42925, 1, 1, 620); (42926, 1, 1, 618); (42928, 1, 1, 670); (42929, 1, 1, 647);
   (42930, 1, 1, 669); (42931, 1, 1, 43859); (42932, 8, 2, 42933); (42948, 1, 1, 42900);
   (42949, 1, 1, 642); (42950, 1, 1, 7566); (42951, 2, 2, 42952); (42960, 1, 1, 42961);
   (42966, 2, 2, 42967); (42997, 1, 1, 42998); (65313, 26, 1, 65345) ]%N.

(** Lower case of the code points from U+10000. *)
Definition lowerAstralRanges : list caseRange :=
  [
   (66560, 40, 1, 66600); (66736, 36, 1, 66776); (66928, 11, 1, 66967); (66940, 15, 1, 66979);
   (66956, 7, 1, 66995); (66964, 2, 1, 67003); (68736, 51, 1, 68800); (71840, 32, 1, 71872);
   (93760, 32, 1, 93792); (125184, 34, 1, 125218) ]%N.

(** Lower case that is more than one code point. *)
Definition lowerSpecial : list (N * list N) :=
  [
   (304, [105; 775]) ]%N.

(** Upper case of the code points below U+10000. *)
Definition upperBmpRanges : list caseRange :=
  [
   (97, 26, 1, 65); (181, 1, 1, 924); (224, 23, 1, 192); (248, 7, 1, 216);
   (255, 1, 1, 376); (257, 24, 2, 256); (305, 1, 1, 73); (307, 3, 2, 306);
   (314, 8, 2, 313); (331, 23, 2, 330); (378, 3, 2, 377); (383, 1, 1, 83);
   (384, 1, 1, 579); (387, 2, 2, 386); (392, 1, 1, 391); (396, 1, 1, 395);
   (402, 1, 1, 401); (405, 1, 1, 502); (409, 1, 1, 408); (410, 1, 1, 573);
   (414, 1, 1, 544); (417, 3, 2, 416); (424, 1, 1, 423); (429, 1, 1, 428);
   (432, 1, 1, 431); (436, 2, 2, 435); (441, 1, 1, 440); (445, 1, 1, 444);
   (447, 1, 1, 503); (453, 1, 1, 452); (454, 1, 1, 452); (456, 1, 1, 455);
   (457, 1, 1, 455); (459, 1, 1, 458); (460, 1, 1, 458); (462, 8, 2, 461);
   (477, 1, 1, 398); (479, 9, 2, 478); (498, 1, 1, 497); (499, 1, 1, 497);
   (501, 1, 1, 500); (505, 20, 2, 504); (547, 9, 2, 546); (572, 1, 1, 571);
   (575, 2, 1, 11390); (578, 1, 1, 577); (583, 5, 2, 582); (592, 1, 1, 11375);
   (593, 1, 1, 11373); (594, 1, 1, 11376); (595, 1, 1, 385); (596, 1, 1, 390);
   (598, 2, 1, 393); (601, 1, 1, 399); (603, 1, 1, 400); (604, 1, 1, 42923);
   (608, 1, 1, 403); (609, 1, 1, 42924); (611, 1, 1, 404); (613, 1, 1, 42893);
   (614, 1, 1, 42922); (616, 1, 1, 407); (617, 1, 1, 406); (618, 1, 1, 42926);
   (619, 1, 1, 11362); (620, 1, 1, 42925); (623, 1, 1, 412); (625, 1, 1, 11374);
   (626, 1, 1, 413); (629, 1, 1, 415); (637, 1, 1, 11364); (640, 1, 1, 422);
   (642, 1, 1, 42949); (643, 1, 1, 425); (647, 1, 1, 42929); (648, 1, 1, 430);
   (649, 1, 1, 580); (650, 2, 1, 433); (652, 1, 1, 581); (658, 1, 1, 439);
   (669, 1, 1, 42930); (670, 1, 1, 42928); (837, 1, 1, 921); (881, 2, 2, 880);
   (887, 1, 1, 886); (891, 3, 1, 1021); (940, 1, 1, 902); (941, 3, 1, 904);
   (945, 17, 1, 913); (962, 1, 1, 931); (963, 9, 1, 931); (972, 1, 1, 908);
   (973, 2, 1, 910); (976, 1, 1, 914); (977, 1, 1, 920); (981, 1, 1, 934);
   (982, 1, 1, 928); (983, 1, 1, 975); (985, 12, 2, 984); (1008, 1, 1, 922);
   (1009, 1, 1, 929); (1010, 1, 1, 1017); (1011, 1, 1, 895); (1013, 1, 1, 917);
   (1016, 1, 1, 1015); (1019, 1, 1, 1018); (1072, 32, 1, 1040); (1104, 16, 1, 1024);
   (1121, 17, 2, 1120); (1163, 27, 2, 1162); (1218, 7, 2, 1217); (1231, 1, 1, 1216);
   (1233, 48, 2, 1232); (1377, 38, 1, 1329); (4304, 43, 1, 7312); (4349, 3, 1, 7357);
   (5112, 6, 1, 5104); (7296, 1, 1, 1042); (7297, 1, 1, 1044); (7298, 1, 1, 1054);
   (7299, 2, 1, 1057); (7301, 1, 1, 1058); (7302, 1, 1, 1066); (7303, 1, 1, 1122);
   (7304, 1, 1, 42570); (7545, 1, 1, 42877); (7549, 1, 1, 11363); (7566, 1, 1, 42950);
   (7681, 75, 2, 7680); (7835, 1, 1, 7776); (7841, 48, 2, 7840); (7936, 8, 1, 7944);
   (7952, 6, 1, 7960); (7968, 8, 1, 7976); (7984, 8, 1, 7992); (8000, 6, 1, 8008);
   (8017, 4, 2, 8025); (8032, 8, 1, 8040); (8048, 2, 1, 8122); (8050, 4, 1, 8136);
   (8054, 2, 1, 8154); (8056, 2, 1, 8184); (8058, 2, 1, 8170); (8060, 2, 1, 8186);
   (8112, 2, 1, 8120); (8126, 1, 1, 921); (8144, 2, 1, 8152); (8160, 2, 1, 8168);
   (8165, 1, 1, 8172); (8526, 1, 1, 8498); (8560, 16, 1, 8544); (8580, 1, 1, 8579);
   (9424, 26, 1, 9398); (11312, 48, 1, 11264); (11361, 1, 1, 11360); (11365, 1, 1, 570);
   (11366, 1, 1, 574); (11368, 3, 2, 11367); (11379, 1, 1, 11378); (11382, 1, 1, 11381);
   (11393, 50, 2, 11392); (11500, 2, 2, 11499); (11507, 1, 1, 11506); (11520, 38, 1, 4256);
   (11559, 1, 1, 4295); (11565, 1, 1, 4301); (42561, 23, 2, 42560); (42625, 14, 2, 42624);
   (42787, 7, 2, 42786); (42803, 31, 2, 42802); (42874, 2, 2, 42873); (42879, 5, 2, 42878);
   (42892, 1, 1, 42891); (42897, 2, 2, 42896); (42900, 1, 1, 42948); (42903, 10, 2, 42902);
   (42933, 8, 2, 42932); (42952, 2, 2, 42951); (42961, 1, 1, 42960); (42967, 2, 2, 42966);
   (42998, 1, 1, 42997); (43859, 1, 1, 42931); (43888, 80, 1, 5024); (65345, 26, 1, 65313) ]%N.

(** Upper case of the code points from U+10000. *)
Definition upperAstralRanges : list caseRange :=
  [
   (66600, 40, 1, 66560); (66776, 36, 1, 66736); (66967, 11, 1, 66928); (66979, 15, 1, 66940);
   (66995, 7, 1, 66956); (67003, 2, 1, 66964); (68800, 51, 1, 68736); (71872, 32, 1, 71840);
   (93792, 32, 1, 93760); (125218, 34, 1, 125184) ]%N.

(** Upper case that is more than one code point. *)
Definition upperSpecial : list (N * list N) :=
  [
   (223, [83; 83]); (329, [700; 78]); (496, [74; 780]); (912, [921; 776; 769]);
   (944, [933; 776; 769]); (1415, [1333; 1362]); (7830, [72; 817]); (7831, [84; 776]);
   (7832, [87; 778]); (7833, [89; 778]); (7834, [65; 702]); (8016, [933; 787]);
   (8018, [933; 787; 768]); (8020, [933; 787; 769]); (8022, [933; 787; 834]); (8064, [7944; 921]);
   (8065, [7945; 921]); (8066, [7946; 921]); (8067, [7947; 921]); (8068, [7948; 921]);
   (8069, [7949; 921]); (8070, [7950; 921]); (8071, [7951; 921]); (8072, [7944; 921]);
   (8073, [7945; 921]); (8074, [7946; 921]); (8075, [7947; 921]); (8076, [7948; 921]);
   (8077, [7949; 921]); (8078, [7950; 921]); (8079, [7951; 921]); (8080, [7976; 921]);
   (8081, [7977; 921]); (8082, [7978; 921]); (8083, [7979; 921]); (8084, [7980; 921]);
   (8085, [7981; 921]); (8086, [7982; 921]); (8087, [7983; 921]); (8088, [7976; 921]);
   (8089, [7977; 921]); (8090, [7978; 921]); (8091, [7979; 921]); (8092, [7980; 921]);
   (8093, [7981; 921]); (8094, [7982; 921]); (8095, [7983; 921]); (8096, [8040; 921]);
   (8097, [8041; 921]); (8098, [8042; 921]); (8099, [8043; 921]); (8100, [8044; 921]);
   (8101, [8045; 921]); (8102, [8046; 921]); (8103, [8047; 921]); (8104, [8040; 921]);
   (8105, [8041; 921]); (8106, [8042; 921]); (8107, [8043; 921]); (8108, [8044; 921]);
   (8109, [8045; 921]); (8110, [8046; 921]); (8111, [8047; 921]); (8114, [8122; 921]);
   (8115, [913; 921]); (8116, [902; 921]); (8118, [913; 834]); (8119, [913; 834; 921]);
   (8124, [913; 921]); (8130, [8138; 921]); (8131, [919; 921]); (8132, [905; 921]);
   (8134, [919; 834]); (8135, [919; 834; 921]); (8140, [919; 921]); (8146, [921; 776; 768]);
   (8147, [921; 776; 769]); (8150, [921; 834]); (8151, [921; 776; 834]); (8162, [933; 776; 768]);
   (8163, [933; 776; 769]); (8164, [929; 787]); (8166, [933; 834]); (8167, [933; 776; 834]);
   (8178, [8186; 921]); (8179, [937; 921]); (8180, [911; 921]); (8182, [937; 834]);
   (8183, [937; 834; 921]); (8188, [937; 921]); (64256, [70; 70]); (64257, [70; 73]);
   (64258, [70; 76]); (64259, [70; 70; 73]); (64260, [70; 70; 76]); (64261, [83; 84]);
   (64262, [83; 84]); (64275, [1348; 1350]); (64276, [1348; 1333]); (64277, [1348; 1339]);
   (64278, [1358; 1350]); (64279, [1348; 1341]) ]%N.

(** The cased code points that are not case-ignorable. *)
Definition casedRanges : list (N * N) :=
  [
   (65, 90); (97, 122); (170, 170); (181, 181); (186, 186); (192, 214);
   (216, 246); (248, 442); (444, 447); (452, 659); (661, 687); (880, 883);
   (886, 887); (891, 893); (895, 895); (902, 902); (904, 906); (908, 908);
   (910, 929); (931, 1013); (1015, 1153); (1162, 1327); (1329, 1366); (1376, 1416);
   (4256, 4293); (4295, 4295); (4301, 4301); (4304, 4346); (4349, 4351); (5024, 5109);
   (5112, 5117); (7296, 7304); (7312, 7354); (7357, 7359); (7424, 7467); (7531, 7543);
   (7545, 7578); (7680, 7957); (7960, 7965); (7968, 8005); (8008, 8013); (8016, 8023);
   (8025, 8025); (8027, 8027); (8029, 8029); (8031, 8061); (8064, 8116); (8118, 8124);
   (8126, 8126); (8130, 8132); (8134, 8140); (8144, 8147); (8150, 8155); (8160, 8172);
   (8178, 8180); (8182, 8188); (8450, 8450); (8455, 8455); (8458, 8467); (8469, 8469);
   (8473, 8477); (8484, 8484); (8486, 8486); (8488, 8488); (8490, 8493); (8495, 8500);
   (8505, 8505); (8508, 8511); (8517, 8521); (8526, 8526); (8544, 8575); (8579, 8580);
   (9398, 9449); (11264, 11387); (11390, 11492); (11499, 11502); (11506, 11507); (11520, 11557);
   (11559, 11559); (11565, 11565); (42560, 42605); (42624, 42651); (42786, 42863); (42865, 42887);
   (42891, 42894); (42896, 42954); (42960, 42961); (42963, 42963); (42965, 42969); (42997, 42998);
   (43002, 43002); (43824, 43866); (43872, 43880); (43888, 43967); (64256, 64262); (64275, 64279);
   (65313, 65338); (65345, 65370); (66560, 66639); (66736, 66771); (66776, 66811); (66928, 66938);
   (66940, 66954); (66956, 66962); (66964, 66965); (66967, 66977); (66979, 66993); (66995, 67001);
   (67003, 67004); (68736, 68786); (68800, 68850); (71840, 71903); (93760, 93823); (119808, 119892);
   (119894, 119964); (119966, 119967); (119970, 119970); (119973, 119974); (119977, 119980); (119982, 119993);
   (119995, 119995); (119997, 120003); (120005, 120069); (120071, 120074); (120077, 120084); (120086, 120092);
   (120094, 120121); (120123, 120126); (120128, 120132); (120134, 120134); (120138, 120144); (120146, 120485);
   (120488, 120512); (120514, 120538); (120540, 120570); (120572, 120596); (120598, 120628); (120630, 120654);
   (120656, 120686); (120688, 120712); (120714, 120744); (120746, 120770); (120772, 120779); (122624, 122633);
   (122635, 122654); (125184, 125251); (127280, 127305); (127312, 127337); (127344, 127369) ]%N.

(** The case-ignorable code points. *)
Definition ignorableRanges : list (N * N) :=
  [
   (39, 39); (46, 46); (58, 58); (94, 94); (96, 96); (168, 168);
   (173, 173); (175, 175); (180, 180); (183, 184); (688, 879); (884, 885);
   (890, 890); (900, 901); (903, 903); (1155, 1161); (1369, 1369); (1375, 1375);
   (1425, 1469); (1471, 1471); (1473, 1474); (1476, 1477); (1479, 1479); (1524, 1524);
   (1536, 1541); (1552, 1562); (1564, 1564); (1600, 1600); (1611, 1631); (1648, 1648);
   (1750, 1757); (1759, 1768); (1770, 1773); (1807, 1807); (1809, 1809); (1840, 1866);
   (1958, 1968); (2027, 2037); (2042, 2042); (2045, 2045); (2070, 2093); (2137, 2139);
   (2184, 2184); (2192, 2193); (2200, 2207); (2249, 2306); (2362, 2362); (2364, 2364);
   (2369, 2376); (2381, 2381); (2385, 2391); (2402, 2403); (2417, 2417); (2433, 2433);
   (2492, 2492); (2497, 2500); (2509, 2509); (2530, 2531); (2558, 2558); (2561, 2562);
   (2620, 2620); (2625, 2626); (2631, 2632); (2635, 2637); (2641, 2641); (2672, 2673);
   (2677, 2677); (2689, 2690); (2748, 2748); (2753, 2757); (2759, 2760); (2765, 2765);
   (2786, 2787); (2810, 2815); (2817, 2817); (2876, 2876); (2879, 2879); (2881, 2884);
   (2893, 2893); (2901, 2902); (2914, 2915); (2946, 2946); (3008, 3008); (3021, 3021);
   (3072, 3072); (3076, 3076); (3132, 3132); (3134, 3136); (3142, 3144); (3146, 3149);
   (3157, 3158); (3170, 3171); (3201, 3201); (3260, 3260); (3263, 3263); (3270, 3270);
   (3276, 3277); (3298, 3299); (3328, 3329); (3387, 3388); (3393, 3396); (3405, 3405);
   (3426, 3427); (3457, 3457); (3530, 3530); (3538, 3540); (3542, 3542); (3633, 3633);
   (3636, 3642); (3654, 3662); (3761, 3761); (3764, 3772); (3782, 3782); (3784, 3789);
   (3864, 3865); (3893, 3893); (3895, 3895); (3897, 3897); (3953, 3966); (3968, 3972);
   (3974, 3975); (3981, 3991); (3993, 4028); (4038, 4038); (4141, 4144); (4146, 4151);
   (4153, 4154); (4157, 4158); (4184, 4185); (4190, 4192); (4209, 4212); (4226, 4226);
   (4229, 4230); (4237, 4237); (4253, 4253); (4348, 4348); (4957, 4959); (5906, 5908);
   (5938, 5939); (5970, 5971); (6002, 6003); (6068, 6069); (6071, 6077); (6086, 6086);
   (6089, 6099); (6103, 6103); (6109, 6109); (6155, 6159); (6211, 6211); (6277, 6278);
   (6313, 6313); (6432, 6434); (6439, 6440); (6450, 6450); (6457, 6459); (6679, 6680);
   (6683, 6683); (6742, 6742); (6744, 6750); (6752, 6752); (6754, 6754); (6757, 6764);
   (6771, 6780); (6783, 6783); (6823, 6823); (6832, 6862); (6912, 6915); (6964, 6964);
   (6966, 6970); (6972, 6972); (6978, 6978); (7019, 7027); (7040, 7041); (7074, 7077);
   (7080, 7081); (7083, 7085); (7142, 7142); (7144, 7145); (7149, 7149); (7151, 7153);
   (7212, 7219); (7222, 7223); (7288, 7293); (7376, 7378); (7380, 7392); (7394, 7400);
   (7405, 7405); (7412, 7412); (7416, 7417); (7468, 7530); (7544, 7544); (7579, 7679);
   (8125, 8125); (8127, 8129); (8141, 8143); (8157, 8159); (8173, 8175); (8189, 8190);
   (8203, 8207); (8216, 8217); (8228, 8228); (8231, 8231); (8234, 8238); (8288, 8292);
   (8294, 8303); (8305, 8305); (8319, 8319); (8336, 8348); (8400, 8432); (11388, 11389);
   (11503, 11505); (11631, 11631); (11647, 11647); (11744, 11775); (11823, 11823); (12293, 12293);
   (12330, 12333); (12337, 12341); (12347, 12347); (12441, 12446); (12540, 12542); (40981, 40981);
   (42232, 42237); (42508, 42508); (42607, 42610); (42612, 42621); (42623, 42623); (42652, 42655);
   (42736, 42737); (42752, 42785); (42864, 42864); (42888, 42890); (42994, 42996); (43000, 43001);
   (43010, 43010); (43014, 43014); (43019, 43019); (43045, 43046); (43052, 43052); (43204, 43205);
   (43232, 43249); (43263, 43263); (43302, 43309); (43335, 43345); (43392, 43394); (43443, 43443);
   (43446, 43449); (43452, 43453); (43471, 43471); (43493, 43494); (43561, 43566); (43569, 43570);
   (43573, 43574); (43587, 43587); (43596, 43596); (43632, 43632); (43644, 43644); (43696, 43696);
   (43698, 43700); (43703, 43704); (43710, 43711); (43713, 43713); (43741, 43741); (43756, 43757);
   (43763, 43764); (43766, 43766); (43867, 43871); (43881, 43883); (44005, 44005); (44008, 44008);
   (44013, 44013); (64286, 64286); (64434, 64450); (65024, 65039); (65043, 65043); (65056, 65071);
   (65106, 65106); (65109, 65109); (65279, 65279); (65287, 65287); (65294, 65294); (65306, 65306);
   (65342, 65342); (65344, 65344); (65392, 65392); (65438, 65439); (65507, 65507); (65529, 65531);
   (66045, 66045); (66272, 66272); (66422, 66426); (67456, 67461); (67463, 67504); (67506, 67514);
   (68097, 68099); (68101, 68102); (68108, 68111); (68152, 68154); (68159, 68159); (68325, 68326);
   (68900, 68903); (69291, 69292); (69446, 69456); (69506, 69509); (69633, 69633); (69688, 69702);
   (69744, 69744); (69747, 69748); (69759, 69761); (69811, 69814); (69817, 69818); (69821, 69821);
   (69826, 69826); (69837, 69837); (69888, 69890); (69927, 69931); (69933, 69940); (70003, 70003);
   (70016, 70017); (70070, 70078); (70089, 70092); (70095, 70095); (70191, 70193); (70196, 70196);
   (70198, 70199); (70206, 70206); (70367, 70367); (70371, 70378); (70400, 70401); (70459, 70460);
   (70464, 70464); (70502, 70508); (70512, 70516); (70712, 70719); (70722, 70724); (70726, 70726);
   (70750, 70750); (70835, 70840); (70842, 70842); (70847, 70848); (70850, 70851); (71090, 71093);
   (71100, 71101); (71103, 71104); (71132, 71133); (71219, 71226); (71229, 71229); (71231, 71232);
   (71339, 71339); (71341, 71341); (71344, 71349); (71351, 71351); (71453, 71455); (71458, 71461);
   (71463, 71467); (71727, 71735); (71737, 71738); (71995, 71996); (71998, 71998); (72003, 72003);
   (72148, 72151); (72154, 72155); (72160, 72160); (72193, 72202); (72243, 72248); (72251, 72254);
   (72263, 72263); (72273, 72278); (72281, 72283); (72330, 72342); (72344, 72345); (72752, 72758);
   (72760, 72765); (72767, 72767); (72850, 72871); (72874, 72880); (72882, 72883); (72885, 72886);
   (73009, 73014); (73018, 73018); (73020, 73021); (73023, 73029); (73031, 73031); (73104, 73105);
   (73109, 73109); (73111, 73111); (73459, 73460); (78896, 78904); (92912, 92916); (92976, 92982);
   (92992, 92995); (94031, 94031); (94095, 94111); (94176, 94177); (94179, 94180); (110576, 110579);
   (110581, 110587); (110589, 110590); (113821, 113822); (113824, 113827); (118528, 118573); (118576, 118598);
   (119143, 119145); (119155, 119170); (119173, 119179); (119210, 119213); (119362, 119364); (121344, 121398);
   (121403, 121452); (121461, 121461); (121476, 121476); (121499, 121503); (121505, 121519); (122880, 122886);
   (122888, 122904); (122907, 122913); (122915, 122916); (122918, 122922); (123184, 123197); (123566, 123566);
   (123628, 123631); (125136, 125142); (125252, 125259); (127995, 127999); (917505, 917505); (917536, 917631);
   (917760, 917999) ]%N.

Definition lowerBmp : list (N * list N) :=
  Eval vm_compute in (lowerSpecial ++ expand lowerBmpRanges).
Definition lowerAstral : list (N * list N) :=
  Eval vm_compute in (expand lowerAstralRanges).
Definition upperBmp : list (N * list N) :=
  Eval vm_compute in (upperSpecial ++ expand upperBmpRanges).
Definition upperAstral : list (N * list N) :=
  Eval vm_compute in (expand upperAstralRanges).

Definition isHighSurrogate (c : char) : bool := inRange 55296 56319 c.
Definition isLowSurrogate (c : char) : bool := inRange 56320 57343 c.

(** Whether a surrogate pair begins with [c], [t] being what follows. *)
Definition pairStarts (c : char) (t : str) : bool :=
  (isHighSurrogate c && match t with d :: _ => isLowSurrogate d | [] => false end)%bool.

Definition codePoint (hi lo : char) : N :=
  (65536 + (hi - 55296) * 1024 + (lo - 56320))%N.

Definition surrogates (cp : N) : str :=
  [(55296 + (cp - 65536) / 1024)%N; (56320 + (cp - 65536) mod 1024)%N].

Definition mapPair (table : list (N * list N)) (hi lo : char) : str :=
  match assoc (codePoint hi lo) table with
  | Some images => flat_map surrogates images
  | None => [hi; lo]
  end.

Definition lowerChar (c : char) : char := if isUpperAZ c then (c + 32)%N else c.
Definition upperChar (c : char) : char := if isLowerAZ c then (c - 32)%N else c.

Definition mapUnit (ascii : char -> char) (table : list (N * list N)) (c : char)
    : str :=
  if N.ltb c 128 then [ascii c]
  else match assoc c table with
       | Some images => images
       | None => [c]
       end.

(** The Final_Sigma condition: a cased letter before, case-ignorable code
    points apart, and none after.  [seen] is the text before, as code
    points, the nearest first. *)
Fixpoint precededByCased (seen : list N) : bool :=
  match seen with
  | [] => false
  | cp :: rest => if inRanges ignorableRanges cp then precededByCased rest
                  else inRanges casedRanges cp
  end.

Fixpoint followedByCased (t : str) : bool :=
  match t with
  | [] => false
  | c :: r =>
      if pairStarts c r
      then match r with
           | d :: r' =>
               if inRanges ignorableRanges (codePoint c d) then followedByCased r'
               else inRanges casedRanges (codePoint c d)
           | [] => false
           end
      else if inRanges ignorableRanges c then followedByCased r
           else inRanges casedRanges c
  end.

Definition lowerUnit (seen : list N) (c : char) (t : str) : str :=
  if N.eqb c 931
  then [if (precededByCased seen && negb (followedByCased t))%bool
        then 962%N else 963%N]
  else mapUnit lowerChar lowerBmp c.

Fixpoint lowerFrom (seen : list N) (s : str) : str :=
  match s with
  | [] => []
  | c :: t =>
      if pairStarts c t
      then match t with
           | d :: t' => mapPair lowerAstral c d ++ lowerFrom (codePoint c d :: seen) t'
           | [] => []
           end
      else lowerUnit seen c t ++ lowerFrom (c :: seen) t
  end.

Definition toLowerCase (s : str) : str := lowerFrom [] s.

Fixpoint toUpperCase (s : str) : str :=
  match s with
  | [] => []
  | c :: t =>
      if pairStarts c t
      then match t with
           | d :: t' => mapPair upperAstral c d ++ toUpperCase t'
           | [] => []
           end
      else mapUnit upperChar upperBmp c ++ toUpperCase t
  end.

Fixpoint str_eqb (a b : str) : bool :=
  match a, b with
  | [], [] => true
  | x :: a', y :: b' => (N.eqb x y && str_eqb a' b')%bool
  | _, _ => false
  end.

(** Truthiness of a string: the empty string is the only falsy one. *)
Definition truthy (s : str) : bool :=
  match s with [] => false | _ :: _ => true end.

(** Truthiness of an optional string ([undefined] is falsy). *)
Definition truthyOpt (o : option str) : bool :=
  match o with Some s => truthy s | None => false end.

Fixpoint startsWith (s w : str) {struct w} : bool :=
  match w, s with
  | [], _ => true
  | a :: w', b :: s' => (N.eqb a b && startsWith s' w')%bool
  | _ :: _, [] => false
  end.

(** [s.includes(w)] *)
Fixpoint includes (s w : str) : bool :=
  (startsWith s w ||
   match s with
   | [] => false
   | _ :: s' => includes s' w
   end)%bool.

Fixpoint trimStart (s : str) : str :=
  match s with
  | c :: s' => if isSpace c then trimStart s' else s
  | [] => []
  end.

Definition trimEnd (s : str) : str := rev (trimStart (rev s)).

Definition trim (s : str) : str := trimEnd (trimStart s).

(** [parts.join(sep)] *)
Fixpoint join (sep : str) (parts : list str) : str :=
  match parts with
  | [] => []
  | [p] => p
  | p :: rest => p ++ sep ++ join sep rest
  end.

(** A number in a template literal: its decimal digits. *)
Definition decimal (n : nat) : str :=
  lit (NilEmpty.string_of_uint (Nat.to_uint n)).

End Js.

(* ================================================================== *)
(** ** Regular expressions *)

Module Re.
Import Js.

(** The constructs the patterns of the route use.  Every quantifier of the
    route applies to a single character class, so repetition is over a
    class. *)
Inductive re : Type :=
| Eps
| Chr (p : char -> bool)                        (* one code unit of a class *)
| Cat (a b : re)
| Alt (a b : re)
| Rep (p : char -> bool) (lo : nat) (hi : option nat)  (* greedy p{lo,hi} *)
| Grp (a : re)                                  (* the capture group *)
| Bnd                                           (* \b *)
| Bol                                           (* ^ *)
| Behind (p : char -> bool).                    (* (?<=[...]) *)

(** A match: the number of code units consumed and the capture. *)
Definition found := (nat * option str)%type.

(** Continuations receive the code unit before the position, the rest of
    the input, the number of code units consumed and the capture. *)
Definition cont := option char -> str -> nat -> option str -> option found.

Definition isWordOpt (o : option char) : bool :=
  match o with Some c => isWord c | None => false end.

Definition orElse (a b : option found) : option found :=
  match a with Some x => Some x | None => b end.

Fixpoint rep (p : char -> bool) (lo : nat) (hi : option nat) (k : cont)
    (prev : option char) (rest : str) (n : nat) (cap : option str)
    {struct rest} : option found :=
  let stop := match lo with O => k prev rest n cap | S _ => None end in
  match hi with
  | Some O => stop
  | _ =>
    match rest with
    | c :: t =>
        if p c
        then orElse (rep p (pred lo) (option_map pred hi) k (Some c) t (S n) cap)
                    stop
        else stop
    | [] => stop
    end
  end.

Fixpoint run (r : re) (k : cont) (prev : option char) (rest : str) (n : nat)
    (cap : option str) {struct r} : option found :=
  match r with
  | Eps => k prev rest n cap
  | Chr p =>
      match rest with
      | c :: t => if p c then k (Some c) t (S n) cap else None
      | [] => None
      end
  | Cat a b => run a (run b k) prev rest n cap
  | Alt a b => orElse (run a k prev rest n cap) (run b k prev rest n cap)
  | Rep p lo hi => rep p lo hi k prev rest n cap
  | Grp a =>
      run a (fun prev' rest' n' _ => k prev' rest' n' (Some (firstn (n' - n) rest)))
          prev rest n cap
  | Bnd =>
      if xorb (isWordOpt prev) (isWordOpt (hd_error rest))
      then k prev rest n cap else None
  | Bol => match prev with None => k prev rest n cap | Some _ => None end
  | Behind p =>
      match prev with
      | Some c => if p c then k prev rest n cap else None
      | None => None
      end
  end.

(** A match starting exactly at the current position. *)
Definition matchAt (r : re) (prev : option char) (rest : str) : option found :=
  run r (fun _ _ n cap => Some (n, cap)) prev rest 0 None.

(** The leftmost match: its start, its length and its capture. *)
Fixpoint searchFrom (r : re) (prev : option char) (rest : str) (i : nat)
    : option (nat * nat * option str) :=
  match matchAt r prev rest with
  | Some (n, cap) => Some (i, n, cap)
  | None =>
      match rest with
      | [] => None
      | c :: t => searchFrom r (Some c) t (S i)
      end
  end.

Definition exec (r : re) (s : str) : option (nat * nat * option str) :=
  searchFrom r None s 0.

(** [r.test(s)] *)
Definition test (r : re) (s : str) : bool :=
  match exec r s with Some _ => true | None => false end.

(** [s.match(r)?.[1]] for a pattern without the g flag. *)
Definition capture1 (r : re) (s : str) : option str :=
  match exec r s with Some (_, _, cap) => cap | None => None end.

(** [s.replace(r, f)] for a pattern without the g flag and a replacement
    computed from the matched text. *)
Definition replaceFirstFn (r : re) (f : str -> str) (s : str) : str :=
  match exec r s with
  | Some (i, n, _) => firstn i s ++ f (firstn n (skipn i s)) ++ skipn (i + n) s
  | None => s
  end.

(** [s.replace(r, repl)] for a pattern without the g flag. *)
Definition replaceFirst (r : re) (repl s : str) : str :=
  replaceFirstFn r (fun _ => repl) s.

(** [s.replace(r, repl)] for a pattern with the g flag; [skip] code units
    of the current match are still to be dropped. *)
Fixpoint replaceGo (r : re) (repl : str) (prev : option char) (rest : str)
    (skip : nat) {struct rest} : str :=
  match skip with
  | S k =>
      match rest with
      | [] => []
      | c :: t => replaceGo r repl (Some c) t k
      end
  | O =>
      match matchAt r prev rest with
      | Some (S n, _) =>
          repl ++ match rest with
                  | [] => []
                  | c :: t => replaceGo r repl (Some c) t n
                  end
      | Some (O, _) =>
          repl ++ match rest with
                  | [] => []
                  | c :: t => c :: replaceGo r repl (Some c) t 0
                  end
      | None =>
          match rest with
          | [] => []
          | c :: t => c :: replaceGo r repl (Some c) t 0
          end
      end
  end.

Definition replaceAll (r : re) (repl s : str) : str :=
  replaceGo r repl None s 0.

(** [s.split(r)]: [cur] is the piece being read, in reverse. *)
Fixpoint splitGo (r : re) (prev : option char) (rest : str) (skip : nat)
    (cur : str) {struct rest} : list str :=
  match rest with
  | [] => [rev cur]
  | c :: t =>
      match skip with
      | S k => splitGo r (Some c) t k cur
      | O =>
          match matchAt r prev rest with
          | Some (S n, _) => rev cur :: splitGo r (Some c) t n []
          | Some (O, _) =>
              match cur with
              | [] => splitGo r (Some c) t 0 [c]
              | _ :: _ => rev cur :: splitGo r (Some c) t 0 [c]
              end
          | None => splitGo r (Some c) t 0 (c :: cur)
          end
      end
  end.

Definition split (r : re) (s : str) : list str :=
  match s with
  | [] => match matchAt r None [] with Some _ => [] | None => [[]] end
  | _ :: _ => splitGo r None s 0 []
  end.

(** Pattern syntax. *)
Definition one (a : ascii) : char -> bool := fun c => N.eqb c (ch a).
Definition oneI (a : ascii) : char -> bool :=
  fun c => N.eqb (upperChar c) (upperChar (ch a)).
Definition anyOf (s : string) : char -> bool :=
  fun c => existsb (N.eqb c) (lit s).

(** A literal text, and the same under the i flag. *)
Definition txt (s : string) : re :=
  fold_right (fun a r => Cat (Chr (one a)) r) Eps (list_ascii_of_string s).
Definition txtI (s : string) : re :=
  fold_right (fun a r => Cat (Chr (oneI a)) r) Eps (list_ascii_of_string s).

Definition plus (p : char -> bool) : re := Rep p 1 None.
Definition star (p : char -> bool) : re := Rep p 0 None.
Definition opt (p : char -> bool) : re := Rep p 0 (Some 1).
Definition upTo2 (p : char -> bool) : re := Rep p 1 (Some 2).

Arguments one a%_char.
Arguments oneI a%_char.
Arguments anyOf s%_string.
Arguments txt s%_string.
Arguments txtI s%_string.

Declare Scope re_scope.
Delimit Scope re_scope with re.
Bind Scope re_scope with re.
Infix ";;" := Cat (at level 61, right associativity) : re_scope.
Infix "<|>" := Alt (at level 62, right associativity) : re_scope.

End Re.

(* ================================================================== *)
(** ** The route *)

Module Agent.
Import Js Re.
Local Open Scope re_scope.
Local Open Scope list_scope.

Definition nl : char := ch "010".

Inductive Tone := professional | friendly | concise | assertive | warm.
Inductive Sentiment := positive | neutral | negative.
Inductive Priority := low | medium | high.

Record Task := mkTask {
  description : str;
  due : option str;
  owner : option str
}.

Record Reply := mkReply {
  reply_subject : str;
  reply_body : str
}.

Record AnalyzePayload := mkAnalyzePayload {
  summary : str;
  sentiment : Sentiment;
  priority : Priority;
  subjectSuggestion : str;
  tags : list str;
  tasks : list Task;
  followUpRecommendation : str;
  recommendedReply : Reply
}.

Record ComposePayload := mkComposePayload {
  subject : str;
  preview : str;
  body : str;
  cadenceTip : str
}.

Definition POSITIVE_WORDS : list str :=
  [lit "thank"; lit "appreciate"; lit "great"; lit "glad"; lit "pleased";
   lit "happy"; lit "excited"].

Definition NEGATIVE_WORDS : list str :=
  [lit "concern"; lit "issue"; lit "problem"; lit "delayed"; lit "delay";
   lit "blocked"; lit "urgent"; lit "frustrated"; lit "disappointed"].

Definition URGENCY_WORDS : list str :=
  [lit "urgent"; lit "asap"; lit "immediately"; lit "priority"; lit "important"].

Record Template := mkTemplate {
  tpl_subject : str;
  tpl_opening : str;
  tpl_closing : str
}.

Definition FOLLOW_UP_TEMPLATES (t : Tone) : Template :=
  match t with
  | professional =>
      mkTemplate
        (lit "Quick follow-up on your message")
        (lit "Thank you for reaching out. I wanted to follow up on your note.")
        (lit "Let me know if you need anything else in the meantime and I'll happily assist.")
  | friendly =>
      mkTemplate
        (lit "Thanks for the update!")
        (lit "Thanks a bunch for the message. I wanted to keep the momentum going.")
        (lit "Looking forward to hearing back when you have a moment.")
  | concise =>
      mkTemplate
        (lit "Following up")
        (lit "Appreciate the note. Here's what we'll do next:")
        (lit "Ping me if priorities change.")
  | assertive =>
      mkTemplate
        (lit "Action needed")
        (lit "Thanks for the details. To keep us on schedule we need to tackle the following:")
        (lit "Please confirm the action items so we can close the loop without delay.")
  | warm =>
      mkTemplate
        (lit "Appreciate the note")
        (lit "Thank you so much for your thoughtful message. Here's how I'll move things forward:")
        (lit "Let me know how it all lands" ++ [emdash]
           ++ lit "always glad to support where I can.")
  end.

(** *** Helpers *)

Definition capitalize (value : str) : str :=
  match value with
  | [] => value
  | c :: rest => toUpperCase [c] ++ rest
  end.

(** [/\s+/] *)
Definition reSpaces : re := plus isSpace.

Definition titleCase (value : str) : str :=
  join (lit " ") (map capitalize (split reSpaces (toLowerCase value))).

(** *** Sentiment and priority *)

Definition detectSentiment (content : str) : Sentiment :=
  let normalized := toLowerCase content in
  let positiveHits := List.length (filter (fun word => includes normalized word) POSITIVE_WORDS) in
  let negativeHits := List.length (filter (fun word => includes normalized word) NEGATIVE_WORDS) in
  if Nat.eqb positiveHits negativeHits then neutral
  else if Nat.ltb negativeHits positiveHits then positive else negative.

(** [/\b\d{1,2}\/\d{1,2}\b/] *)
Definition reDateToken : re :=
  Bnd ;; upTo2 isDigit ;; Chr (one "/") ;; upTo2 isDigit ;; Bnd.

(** [/\b(next week|soon|follow up)\b/] *)
Definition reSoon : re :=
  Bnd ;; Grp (txt "next week" <|> txt "soon" <|> txt "follow up") ;; Bnd.

Definition determinePriority (content : str) : Priority :=
  let normalized := toLowerCase content in
  if existsb (fun word => includes normalized word) URGENCY_WORDS then high
  else if test reDateToken normalized then medium
  else if test reSoon normalized then medium
  else low.

(** *** Tasks *)

(** [/\r?\n/] *)
Definition reLineBreak : re := opt (one "013") ;; Chr (one "010").

(** [/^(\*|-|\d+\.)/] *)
Definition reBullet : re :=
  Bol ;; Grp (Chr (one "*") <|> Chr (one "-") <|> plus isDigit ;; Chr (one ".")).

(** [/(please|can you|could you|action)/i] *)
Definition reAsk : re :=
  Grp (txtI "please" <|> txtI "can you" <|> txtI "could you" <|> txtI "action").

(** [/^(\*|-|\d+\.)\s*/] *)
Definition reBulletStrip : re :=
  Bol ;; Grp (Chr (one "*") <|> Chr (one "-") <|> plus isDigit ;; Chr (one "."))
      ;; star isSpace.

(** [/\bby\s+((?:next\s+week|tomorrow|today|\d{1,2}\/\d{1,2}|\w+\s+\d{1,2}))/i] *)
Definition reDueBy : re :=
  Bnd ;; txtI "by" ;; plus isSpace ;;
  Grp (txtI "next" ;; plus isSpace ;; txtI "week"
       <|> txtI "tomorrow"
       <|> txtI "today"
       <|> upTo2 isDigit ;; Chr (one "/") ;; upTo2 isDigit
       <|> plus isWord ;; plus isSpace ;; upTo2 isDigit).

(** [/\b(?:due|deadline)\s+(\w+\s+\d{1,2})/i] *)
Definition reDueWord : re :=
  Bnd ;; (txtI "due" <|> txtI "deadline") ;; plus isSpace ;;
  Grp (plus isWord ;; plus isSpace ;; upTo2 isDigit).

(** [/\bfor\s+([A-Z][a-z]+)/] *)
Definition reOwner : re :=
  Bnd ;; txt "for" ;; plus isSpace ;; Grp (Chr isUpperAZ ;; plus isLowerAZ).

Definition isTaskLine (line : str) : bool :=
  (test reBullet (trim line) || test reAsk line)%bool.

Definition taskOfLine (line : str) : Task :=
  let description := trim (replaceFirst reBulletStrip [] line) in
  let dueMatch :=
    match exec reDueBy description with
    | Some m => Some m
    | None => exec reDueWord line
    end in
  let ownerMatch := exec reOwner description in
  {| description := capitalize description;
     due := match dueMatch with
            | Some (_, _, Some d) => if truthy d then Some (titleCase d) else None
            | _ => None
            end;
     owner := match ownerMatch with
              | Some (_, _, o) => o
              | None => None
              end |}.

Definition extractTasks (content : str) : list Task :=
  let lines := split reLineBreak content in
  let taskLines := filter isTaskLine lines in
  filter (fun task => truthy (description task)) (map taskOfLine taskLines).

(** *** Subject, summary, tags, follow-up *)

Definition buildSubject (tasks : list Task) (priority : Priority)
    (sentiment : Sentiment) : str :=
  let leadTask := match tasks with t :: _ => description t | [] => [] end in
  let tag :=
    match priority with
    | high => lit "Urgent"
    | _ => match sentiment with
           | positive => lit "Update"
           | _ => lit "Follow-up"
           end
    end in
  if truthy leadTask then lit "[" ++ tag ++ lit "] " ++ leadTask
  else
    match priority with
    | high => lit "[Urgent] Action required on latest request"
    | medium => lit "Next steps for your email"
    | low => lit "Thanks for the update " ++ [emdash] ++ lit " here's the plan"
    end.

(** [/\n+/g] *)
Definition reNewlines : re := plus (one "010").

(** [/(?<=[.?!])\s+/] *)
Definition reSentenceGap : re := Behind (anyOf ".?!") ;; plus isSpace.

(** The sentences of the content and the summary computed from them. *)
Definition sentencesOf (content : str) : list str :=
  filter truthy (split reSentenceGap (replaceAll reNewlines (lit " ") content)).

Definition computedSummary (content : str) : str :=
  join (lit " ") (firstn 3 (sentencesOf content)).

Definition historyNoteOf (threadHistory : option str) : str :=
  match threadHistory with
  | Some h =>
      if truthy h
      then lit " Thread context considered ("
             ++ decimal (List.length (split reSpaces h)) ++ lit " words)."
      else []
  | None => []
  end.

Definition summarize (content : str) (threadHistory : option str) : str :=
  let summary := computedSummary content in
  let historyNote := historyNoteOf threadHistory in
  if truthy summary then summary
  else lit "No summary available." ++ historyNote.

(** The insertion-ordered [Set] of the tags: [add] of a member is a no-op. *)
Definition setAdd (x : str) (s : list str) : list str :=
  if existsb (str_eqb x) s then s else s ++ [x].

Definition buildTags (priority : Priority) (sentiment : Sentiment)
    (tasks : list Task) : list str :=
  let tags := [] in
  let tags :=
    setAdd (match priority with
            | high => lit "Hot"
            | medium => lit "Follow-up"
            | low => lit "Backlog"
            end) tags in
  let tags :=
    setAdd (match sentiment with
            | positive => lit "Relationship"
            | negative => lit "Risk"
            | neutral => lit "Neutral"
            end) tags in
  let tags :=
    if Nat.ltb 0 (List.length tasks) then setAdd (lit "Action items") tags
    else tags in
  let tags :=
    if existsb (fun task => truthyOpt (owner task)) tasks
    then setAdd (lit "Delegation") tags
    else tags in
  tags.

(** [/\b(wait|await|response|hear back)\b/i] *)
Definition reWaiting : re :=
  Bnd ;; Grp (txtI "wait" <|> txtI "await" <|> txtI "response" <|> txtI "hear back")
      ;; Bnd.

Definition buildFollowUpRecommendation (priority : Priority) (tasks : list Task)
    (content : str) : str :=
  let waitingForResponse := test reWaiting content in
  let hasTasks := Nat.ltb 0 (List.length tasks) in
  match priority with
  | high => lit "Follow up within 4 business hours and confirm ownership of each task."
  | _ =>
    if waitingForResponse
    then lit "Schedule a reminder in 2 days to check for updates."
    else if hasTasks
    then lit "Log tasks in your system and share a progress update within 24 hours."
    else lit "Archive for now, revisit over the weekend for any broader updates."
  end.

(** *** The recommended reply *)

(** [/^(Thank you|Thanks)/] *)
Definition reThanksLead : re := Bol ;; Grp (txt "Thank you" <|> txt "Thanks").

Definition taskBullet (task : Task) : str :=
  let due :=
    match due task with
    | Some d => if truthy d then lit " (due " ++ d ++ lit ")" else []
    | None => []
    end in
  let owner :=
    match owner task with
    | Some o => if truthy o then lit " " ++ [emdash] ++ lit " owner: " ++ o else []
    | None => []
    end in
  [bullet] ++ lit " " ++ description task ++ due ++ owner.

Definition generateReply (tone : Tone) (tasks : list Task) (summary : str)
    (persona : option str) : Reply :=
  let template := FOLLOW_UP_TEMPLATES tone in
  let intro :=
    if truthyOpt persona
    then
      let persona := match persona with Some p => p | None => [] end in
      replaceFirstFn reThanksLead
        (fun matched =>
           if str_eqb matched (lit "Thanks")
           then lit "Hi " ++ persona ++ lit ", thanks"
           else lit "Hi " ++ persona ++ lit ", thank you")
        (tpl_opening template)
    else tpl_opening template in
  let bulletSection :=
    if Nat.ltb 0 (List.length tasks)
    then [nl; nl] ++ lit "Here's what I'm tracking:" ++ [nl]
           ++ join [nl] (map taskBullet tasks)
    else [] in
  let body :=
    intro ++ [nl; nl] ++ summary ++ bulletSection ++ [nl; nl]
      ++ tpl_closing template ++ [nl; nl]
      ++ lit "Best," ++ [nl] ++ lit "Your Email Agent" in
  {| reply_subject := tpl_subject template; reply_body := body |}.

Definition analyzeEmail (content : str) (threadHistory persona : option str)
    : AnalyzePayload :=
  let sentiment := detectSentiment content in
  let priority := determinePriority content in
  let tasks := extractTasks content in
  let subjectSuggestion := buildSubject tasks priority sentiment in
  let summary := summarize content threadHistory in
  let tags := buildTags priority sentiment tasks in
  let followUpRecommendation := buildFollowUpRecommendation priority tasks content in
  let tone := match priority with high => assertive | _ => professional end in
  let recommendedReply := generateReply tone tasks summary persona in
  {| summary := summary;
     sentiment := sentiment;
     priority := priority;
     subjectSuggestion := subjectSuggestion;
     tags := tags;
     tasks := tasks;
     followUpRecommendation := followUpRecommendation;
     recommendedReply := recommendedReply |}.

(** *** The compose pipeline *)

Definition craftSubjectFromObjective (objective fallback : str) : str :=
  if negb (truthy objective) then fallback
  else
    let normalized := toLowerCase objective in
    if includes normalized (lit "update") then lit "Quick project update"
    else if includes normalized (lit "intro") then lit "Introduction and next steps"
    else if includes normalized (lit "meeting") then lit "Proposed agenda for our meeting"
    else if includes normalized (lit "feedback")
    then lit "Feedback and proposed improvements"
    else capitalize objective.

Definition isSoftTone (tone : Tone) : bool :=
  match tone with friendly | warm => true | _ => false end.

Definition craftOpening (templateOpening audience : str) (tone : Tone) : str :=
  let recipient := trim audience in
  if negb (truthy recipient) then templateOpening
  else
    let greeting := if isSoftTone tone then lit "Hi" else lit "Hello" in
    let softenedOpening :=
      replaceFirst (Bol ;; txt "Thanks") (lit "thanks")
        (replaceFirst (Bol ;; txt "Thank you") (lit "thank you") templateOpening) in
    greeting ++ lit " " ++ recipient ++ lit ", " ++ softenedOpening.

Definition buildPreview (body : str) : str :=
  let condensed := trim (replaceAll reSpaces (lit " ") body) in
  firstn 140 condensed
    ++ (if Nat.ltb 140 (List.length condensed) then lit "..." else []).

Definition buildCadenceTip (tone : Tone) (cleanPoints : list str) : str :=
  let base :=
    match tone with
    | assertive => lit "Set a reminder to nudge the recipient within 1 business day."
    | concise => lit "Share a short recap if you do not hear back within 2 days."
    | _ => lit "Send a friendly check-in if there's no response within 3 days."
    end in
  if Nat.ltb 2 (List.length cleanPoints)
  then base ++ lit " Consider bolding the key decisions to make scanning easier."
  else base.

Definition composeEmail (audience objective : str) (tone : Tone)
    (keyPoints : list str) (callToAction signature : option str)
    : ComposePayload :=
  let cleanPoints :=
    map (fun point => if startsWith point (lit "-") then trim (skipn 1 point) else point)
        (filter truthy (map trim keyPoints)) in
  let toneTemplate := FOLLOW_UP_TEMPLATES tone in
  let subject := craftSubjectFromObjective objective (tpl_subject toneTemplate) in
  let opening := craftOpening (tpl_opening toneTemplate) audience tone in
  let bodyPoints :=
    if Nat.ltb 0 (List.length cleanPoints)
    then join [nl] (map (fun point => [bullet] ++ lit " " ++ capitalize point) cleanPoints)
    else [bullet] ++ lit " Key details are included in the attachments." in
  let callout :=
    match callToAction with
    | Some c =>
        if truthy c then [nl; nl] ++ lit "Next up: " ++ capitalize c ++ lit "." else []
    | None => []
    end in
  let closing := tpl_closing toneTemplate in
  let signoff :=
    match signature with
    | Some s => s
    | None =>
        if isSoftTone tone
        then lit "All the best," ++ [nl] ++ lit "Your Email Agent"
        else lit "Best regards," ++ [nl] ++ lit "Your Email Agent"
    end in
  let body :=
    opening ++ [nl; nl]
      ++ (if truthy objective
          then lit "Objective: " ++ capitalize objective ++ [nl; nl] else [])
      ++ bodyPoints ++ callout ++ [nl; nl] ++ closing ++ [nl; nl] ++ signoff in
  let preview := buildPreview body in
  let cadenceTip := buildCadenceTip tone cleanPoints in
  {| subject := subject; preview := preview; body := body;
     cadenceTip := cadenceTip |}.

(** *** The handler *)

(** The parsed JSON payload.  [mode] is any string; [content] may be
    missing (the handler reads it with [?.]); the other fields are as the
    request types declare them. *)
Record Payload := mkPayload {
  mode : str;
  content : option str;
  threadHistory : option str;
  persona : option str;
  audience : str;
  objective : str;
  tone : Tone;
  keyPoints : list str;
  callToAction : option str;
  signature : option str
}.

Inductive ResponseBody :=
| ErrorBody (error : str)
| AnalyzeBody (analysis : AnalyzePayload)
| ComposeBody (result : ComposePayload).

Record Response := mkResponse {
  status : nat;
  responseBody : ResponseBody
}.

Section Handler.
(** The handler over the two pipelines it calls. *)
Variable analyze : str -> option str -> option str -> AnalyzePayload.
Variable compose :
  str -> str -> Tone -> list str -> option str -> option str -> ComposePayload.

Definition handle (payload : Payload) : Response :=
  if str_eqb (mode payload) (lit "analyze") then
    let content := option_map trim (content payload) in
    if negb (truthyOpt content)
    then mkResponse 400 (ErrorBody (lit "Email content is required."))
    else
      let content := match content with Some c => c | None => [] end in
      mkResponse 200
        (AnalyzeBody (analyze content (threadHistory payload) (persona payload)))
  else if str_eqb (mode payload) (lit "compose") then
    mkResponse 200
      (ComposeBody
         (compose (trim (audience payload)) (trim (objective payload))
                  (tone payload) (keyPoints payload)
                  (option_map trim (callToAction payload))
                  (option_map trim (signature payload))))
  else mkResponse 400 (ErrorBody (lit "Unsupported mode.")).
End Handler.

Definition POST (payload : Payload) : Response :=
  handle analyzeEmail composeEmail payload.

End Agent.

(* ================================================================== *)
(** ** The page that calls the route *)

Module Ui.
Import Js Re Agent.

(** What a panel of the page shows once a handler has run: the result, the
    error message and the busy flag. *)
Record Panel := mkPanel {
  result : option ResponseBody;
  error : option str;
  busy : bool
}.

(** [response.ok] *)
Definition ok (response : Response) : bool :=
  (Nat.leb 200 (status response) && Nat.leb (status response) 299)%bool.

(** [payload?.error ?? fallback] on the parsed body of a failed response. *)
Definition errorOf (b : ResponseBody) (fallback : str) : str :=
  match b with ErrorBody e => e | _ => fallback end.

(** The request [handleAnalyze] sends.  The fields it does not carry are
    left empty; the analyze branch of the handler does not read them. *)
Definition analyzeRequest (incomingEmail threadHistory persona : str) : Payload :=
  {| mode := lit "analyze"; content := Some incomingEmail;
     threadHistory := Some threadHistory; persona := Some persona;
     audience := []; objective := []; tone := professional; keyPoints := [];
     callToAction := None; signature := None |}.

(** The request [handleCompose] sends: the key points are the lines of
    the text area. *)
Definition composeRequest (audience objective : str) (tone : Tone)
    (keyPoints callToAction signature : str) : Payload :=
  {| mode := lit "compose"; content := None; threadHistory := None;
     persona := None; audience := audience; objective := objective;
     tone := tone; keyPoints := split reLineBreak keyPoints;
     callToAction := Some callToAction; signature := Some signature |}.

Section Handlers.
(** [fetch] either throws an [Error] with a message or gives a response. *)
Variable fetch : Payload -> str + Response.

Definition settle (request : Payload) (fallback : str) : Panel :=
  match fetch request with
  | inl message => mkPanel None (Some message) false
  | inr response =>
      if negb (ok response)
      then mkPanel None (Some (errorOf (responseBody response) fallback)) false
      else mkPanel (Some (responseBody response)) None false
  end.

Definition handleAnalyze (incomingEmail threadHistory persona : str)
    (panel : Panel) : Panel :=
  if negb (truthy (trim incomingEmail))
  then mkPanel (result panel)
         (Some (lit "Drop in the email you want the agent to triage first."))
         (busy panel)
  else settle (analyzeRequest incomingEmail threadHistory persona)
         (lit "Unable to analyze this email.").

Definition handleCompose (audience objective : str) (tone : Tone)
    (keyPoints callToAction signature : str) (panel : Panel) : Panel :=
  if negb (truthy (trim objective))
  then mkPanel None (Some (lit "Give the agent a clear objective to aim for."))
         (busy panel)
  else settle (composeRequest audience objective tone keyPoints callToAction signature)
         (lit "Unable to generate the draft.").
End Handlers.

(** The route answering the request. *)
Definition served (request : Payload) : str + Response := inr (POST request).

End Ui.

(* ================================================================== *)
(** ** Specification vocabulary *)

Module Spec.
Import Js Re Agent.

(** [w] occurs as a substring of [s]. *)
Definition Infix (w s : str) : Prop := exists pre post, s = pre ++ w ++ post.

(** [s] ends with [w]. *)
Definition EndsWith (s w : str) : Prop := exists pre, s = pre ++ w.

(** [Hits words s n]: [n] words of the list occur as a substring of [s];
    a word counts once, however often it occurs. *)
Inductive Hits : list str -> str -> nat -> Prop :=
| Hits_nil s : Hits [] s 0
| Hits_yes w ws s n : Infix w s -> Hits ws s n -> Hits (w :: ws) s (S n)
| Hits_no w ws s n : ~ Infix w s -> Hits ws s n -> Hits (w :: ws) s n.

(** Some urgency word occurs in [s]. *)
Definition Urgent (s : str) : Prop :=
  exists w, In w URGENCY_WORDS /\ Infix w s.

(** The number of whitespace-separated tokens of a string: its maximal
    runs of code units that are not whitespace.  [inTok] tells whether the
    previous code unit belongs to a token. *)
Fixpoint tokensFrom (inTok : bool) (s : str) : nat :=
  match s with
  | [] => 0
  | c :: t =>
      if isSpace c then tokensFrom false t
      else (if inTok then 0 else 1) + tokensFrom true t
  end.

Definition wordCount (s : str) : nat := tokensFrom false s.

(** The code unit before a position that lies [x] after a position whose
    previous code unit is [prev]. *)
Definition lastOr (prev : option char) (x : str) : option char :=
  fold_left (fun _ c => Some c) x prev.

Definition within (hi : option nat) (m : nat) : Prop :=
  match hi with Some h => m <= h | None => True end.

(** What a pattern matches: [lang r prev x post] says that [r] matches the
    text [x] when [prev] is the code unit before it and [post] the text
    after it. *)
Fixpoint lang (r : re) (prev : option char) (x post : str) : Prop :=
  match r with
  | Eps => x = []
  | Chr p => exists c, x = [c] /\ p c = true
  | Cat a b =>
      exists x1 x2,
        x = x1 ++ x2 /\ lang a prev x1 (x2 ++ post) /\ lang b (lastOr prev x1) x2 post
  | Alt a b => lang a prev x post \/ lang b prev x post
  | Rep p lo hi => forallb p x = true /\ lo <= List.length x /\ within hi (List.length x)
  | Grp a => lang a prev x post
  | Bnd => x = [] /\ xorb (isWordOpt prev) (isWordOpt (hd_error post)) = true
  | Bol => x = [] /\ prev = None
  | Behind p => x = [] /\ exists c, prev = Some c /\ p c = true
  end.

(** A continuation whose success does not depend on the capture. *)
Definition capfree (k : cont) : Prop :=
  forall prev rest n c c', k prev rest n c <> None -> k prev rest n c' <> None.

(** [r] matches somewhere in [s]. *)
Definition Occurs (r : re) (s : str) : Prop :=
  exists pre x post, s = pre ++ x ++ post /\ lang r (lastOr None pre) x post.

(** One or two digits. *)
Definition Digits12 (a : str) : Prop :=
  forallb isDigit a = true /\ 1 <= List.length a <= 2.

(** No word character before [pre] ends, none where [post] begins. *)
Definition WordBounded (pre post : str) : Prop :=
  isWordOpt (lastOr None pre) = false /\ isWordOpt (hd_error post) = false.

(** [s] has a word-bounded token of the shape d{1,2}/d{1,2}. *)
Definition DateToken (s : str) : Prop :=
  exists pre a b post,
    s = pre ++ (a ++ ch "/" :: b) ++ post /\
    Digits12 a /\ Digits12 b /\ WordBounded pre post.

(** [s] has one of the three phrases, as whole words. *)
Definition SoonPhrase (s : str) : Prop :=
  exists pre w post,
    s = pre ++ w ++ post /\
    In w [lit "next week"; lit "soon"; lit "follow up"] /\
    WordBounded pre post.

(** The length of the longest prefix of [s] within the class [p]. *)
Fixpoint spanLen (p : char -> bool) (s : str) : nat :=
  match s with
  | c :: t => if p c then S (spanLen p t) else 0
  | [] => 0
  end.

(** The number of runs of the class [p] that begin in [s]; [inRun] tells
    whether the previous code unit is of the class. *)
Fixpoint runsFrom (p : char -> bool) (inRun : bool) (s : str) : nat :=
  match s with
  | [] => 0
  | c :: t =>
      if p c then (if inRun then 0 else 1) + runsFrom p true t
      else runsFrom p false t
  end.

(** Whether the last code unit of [s] is whitespace ([d] for the empty
    string), and whether the first one is. *)
Fixpoint endsInSpace (d : bool) (s : str) : bool :=
  match s with
  | [] => d
  | c :: t => endsInSpace (isSpace c) t
  end.

Definition startsWithSpace (s : str) : bool :=
  match s with c :: _ => isSpace c | [] => false end.

(** [s] with every run of the class [p] replaced by [repl]; [inRun] tells
    whether the previous code unit is of the class. *)
Fixpoint collapse (p : char -> bool) (repl : str) (inRun : bool) (s : str) : str :=
  match s with
  | [] => []
  | c :: t =>
      if p c then (if inRun then [] else repl) ++ collapse p repl true t
      else c :: collapse p repl false t
  end.

(** The thread-context note for a count [n]. *)
Definition threadNote (n : nat) : str :=
  lit " Thread context considered (" ++ decimal n ++ lit " words).".

(** An absent or blank content. *)
Definition Blank (o : option str) : Prop :=
  match o with
  | None => True
  | Some c => Forall (fun x => isSpace x = true) c
  end.

Definition isErrorBody (b : ResponseBody) : Prop :=
  match b with ErrorBody _ => True | _ => False end.

(** The same request with another thread history. *)
Definition withThreadHistory (p : Payload) (h : option str) : Payload :=
  {| mode := mode p; content := content p; threadHistory := h;
     persona := persona p; audience := audience p; objective := objective p;
     tone := tone p; keyPoints := keyPoints p;
     callToAction := callToAction p; signature := signature p |}.

(** The content of the end-to-end example of the analyze pipeline. *)
Definition exampleContent : str :=
  lit "Please update the docs by Thursday. Thanks so much, this is urgent!".

(** A compose request whose signature ends in an ellipsis. *)
Definition ellipsisDraft : ComposePayload :=
  composeEmail [] [] concise [lit "x"] None (Some (lit "ok...")).

(** The tag of a priority and the tag of a sentiment. *)
Definition priorityTag (p : Priority) : str :=
  match p with
  | high => lit "Hot"
  | medium => lit "Follow-up"
  | low => lit "Backlog"
  end.

Definition sentimentTag (s : Sentiment) : str :=
  match s with
  | positive => lit "Relationship"
  | negative => lit "Risk"
  | neutral => lit "Neutral"
  end.

(** The tone of the recommended reply. *)
Definition replyTone (p : Priority) : Tone :=
  match p with high => assertive | _ => professional end.

(** *** Further vocabulary *)

(** Only whitespace. *)
Definition AllSpace (s : str) : Prop := Forall (fun x => isSpace x = true) s.

(** No whitespace at either end. *)
Definition Trimmed (s : str) : Prop :=
  (forall c t, s = c :: t -> isSpace c = false) /\
  (forall t c, s = t ++ [c] -> isSpace c = false).

(** Every whitespace code unit of [s] is a space, and no two are adjacent;
    [prevSpace] tells whether the code unit before [s] is whitespace. *)
Fixpoint spacedOnce (prevSpace : bool) (s : str) : bool :=
  match s with
  | [] => true
  | c :: t =>
      if isSpace c then (N.eqb c 32 && negb prevSpace && spacedOnce true t)%bool
      else spacedOnce false t
  end.

(** What a pattern matches and captures: [cin] is the capture before the
    match and [cout] the capture after it. *)
Fixpoint langc (r : re) (prev : option char) (x post : str)
    (cin cout : option str) : Prop :=
  match r with
  | Cat a b =>
      exists x1 x2 cmid,
        x = x1 ++ x2 /\ langc a prev x1 (x2 ++ post) cin cmid /\
        langc b (lastOr prev x1) x2 post cmid cout
  | Alt a b => langc a prev x post cin cout \/ langc b prev x post cin cout
  | Grp a => lang a prev x post /\ cout = Some x
  | _ => lang r prev x post /\ cout = cin
  end.

(** [x] is [w] up to the case of the letters a-z. *)
Definition SameText (x w : str) : Prop := map upperChar x = map upperChar w.

(** [w] occurs in [s] in some letter case. *)
Definition InfixI (w s : str) : Prop :=
  exists pre x post, s = pre ++ x ++ post /\ SameText x w.

(** [s] has one of the waiting words as a whole word, in any letter case. *)
Definition WaitingWord (s : str) : Prop :=
  exists pre x post w,
    s = pre ++ x ++ post /\
    In w [lit "wait"; lit "await"; lit "response"; lit "hear back"] /\
    SameText x w /\ WordBounded pre post.

(** A line that begins with a bullet: a star, a dash, or digits and a dot. *)
Definition BulletStart (t : str) : Prop :=
  (exists rest, t = ch "*" :: rest) \/
  (exists rest, t = ch "-" :: rest) \/
  (exists ds rest,
     ds <> [] /\ forallb isDigit ds = true /\ t = ds ++ ch "." :: rest).

(** A line that asks for something. *)
Definition AskWord (line : str) : Prop :=
  exists w,
    In w [lit "please"; lit "can you"; lit "could you"; lit "action"] /\
    InfixI w line.

(** The opening of a template with its leading Thank you or Thanks in
    lower case; the concise opening has neither and stays as it is. *)
Definition softOpening (t : Tone) : str :=
  match t with
  | professional => lit "thank you for reaching out. I wanted to follow up on your note."
  | friendly => lit "thanks a bunch for the message. I wanted to keep the momentum going."
  | concise => lit "Appreciate the note. Here's what we'll do next:"
  | assertive =>
      lit "thanks for the details. To keep us on schedule we need to tackle the following:"
  | warm =>
      lit "thank you so much for your thoughtful message. Here's how I'll move things forward:"
  end.

(** The first line of a reply. *)
Definition replyIntro (t : Tone) (persona : option str) : str :=
  match persona with
  | Some (c :: p) =>
      match t with
      | concise => tpl_opening (FOLLOW_UP_TEMPLATES t)
      | _ => lit "Hi " ++ (c :: p) ++ lit ", " ++ softOpening t
      end
  | _ => tpl_opening (FOLLOW_UP_TEMPLATES t)
  end.

Definition greetingOf (t : Tone) : str :=
  if isSoftTone t then lit "Hi" else lit "Hello".

(** The key points that are not blank. *)
Definition nonBlankPoints (keyPoints : list str) : list str :=
  filter (fun k => negb (forallb isSpace k)) keyPoints.

Definition baseCadenceTip (t : Tone) : str :=
  match t with
  | assertive => lit "Set a reminder to nudge the recipient within 1 business day."
  | concise => lit "Share a short recap if you do not hear back within 2 days."
  | _ => lit "Send a friendly check-in if there's no response within 3 days."
  end.

Definition defaultSignoff (t : Tone) : str :=
  if isSoftTone t
  then lit "All the best," ++ [nl] ++ lit "Your Email Agent"
  else lit "Best regards," ++ [nl] ++ lit "Your Email Agent".

(** The tag in front of the subject suggestion. *)
Definition subjectTag (p : Priority) (s : Sentiment) : str :=
  match p with
  | high => lit "Urgent"
  | _ => match s with positive => lit "Update" | _ => lit "Follow-up" end
  end.

Definition subjectFallback (p : Priority) : str :=
  match p with
  | high => lit "[Urgent] Action required on latest request"
  | medium => lit "Next steps for your email"
  | low => lit "Thanks for the update " ++ [emdash] ++ lit " here's the plan"
  end.

(** The same request with another content. *)
Definition withContent (p : Payload) (c : option str) : Payload :=
  {| mode := mode p; content := c; threadHistory := threadHistory p;
     persona := persona p; audience := audience p; objective := objective p;
     tone := tone p; keyPoints := keyPoints p;
     callToAction := callToAction p; signature := signature p |}.

(** Text of code units below 128. *)
Definition Ascii (w : str) : Prop := Forall (fun c => (c < 128)%N) w.

End Spec.

(* ================================================================== *)
(** ** Facts about strings *)

Import Js Re Agent Ui Spec.

Lemma str_eqb_eq (a b : str) : str_eqb a b = true <-> a = b.
Proof.
  revert b; induction a as [|x a IH]; intros [|y b]; simpl;
    try (split; [discriminate | discriminate]); try tauto.
  rewrite andb_true_iff, N.eqb_eq, IH.
  split; [intros [-> ->]; reflexivity | intros H; inversion H; auto].
Qed.

Lemma str_eqb_neq (a b : str) : str_eqb a b = false <-> a <> b.
Proof.
  rewrite <- str_eqb_eq. destruct (str_eqb a b); split; congruence.
Qed.

Lemma truthy_true (s : str) : truthy s = true <-> s <> [].
Proof. destruct s; simpl; split; congruence. Qed.

Lemma truthy_false (s : str) : truthy s = false <-> s = [].
Proof. destruct s; simpl; split; congruence. Qed.

Lemma startsWith_prefix (s w : str) :
  startsWith s w = true <-> exists post, s = w ++ post.
Proof.
  revert s; induction w as [|a w IH]; intros s; simpl.
  - split; [intros _; exists s; reflexivity | reflexivity].
  - destruct s as [|b s].
    + split; [discriminate | intros [post H]; discriminate].
    + rewrite andb_true_iff, N.eqb_eq, IH. split.
      * intros [-> [post ->]]. exists post. reflexivity.
      * intros [post H]. inversion H; subst. split; [reflexivity | eauto].
Qed.

Lemma includes_infix (s w : str) : includes s w = true <-> Infix w s.
Proof.
  induction s as [|c s IH].
  - simpl. rewrite orb_false_r, startsWith_prefix. split.
    + intros [post H]. exists [], post. exact H.
    + intros [pre [post H]]. destruct pre; [eauto | discriminate].
  - cbn [includes]. rewrite orb_true_iff, startsWith_prefix, IH. split.
    + intros [[post H] | [pre [post H]]].
      * exists [], post. exact H.
      * exists (c :: pre), post. rewrite H. reflexivity.
    + intros [[|x pre] [post H]].
      * left. exists post. exact H.
      * right. inversion H; subst. exists pre, post. reflexivity.
Qed.

Lemma includes_not_infix (s w : str) : includes s w = false <-> ~ Infix w s.
Proof.
  rewrite <- includes_infix. destruct (includes s w); split; congruence.
Qed.

(** *** Case conversion *)

Lemma ascii_not_surrogate (c : char) (t : str) :
  (c < 128)%N -> pairStarts c t = false.
Proof.
  intros H. unfold pairStarts, isHighSurrogate, inRange.
  destruct (N.leb_spec 55296 c); [lia | reflexivity].
Qed.

Lemma ascii_not_low (c : char) : (c < 128)%N -> isLowSurrogate c = false.
Proof.
  intros H. unfold isLowSurrogate, inRange.
  destruct (N.leb_spec 56320 c); [lia | reflexivity].
Qed.

Lemma lowerUnit_ascii (seen : list N) (c : char) (t : str) :
  (c < 128)%N -> lowerUnit seen c t = [lowerChar c].
Proof.
  intros H. unfold lowerUnit, mapUnit.
  destruct (N.eqb_spec c 931); [lia |].
  destruct (N.ltb_spec c 128); [reflexivity | lia].
Qed.

Lemma lowerFrom_cons (seen : list N) (c : char) (t : str) :
  lowerFrom seen (c :: t)
  = if pairStarts c t
    then match t with
         | d :: t' => mapPair lowerAstral c d ++ lowerFrom (codePoint c d :: seen) t'
         | [] => []
         end
    else lowerUnit seen c t ++ lowerFrom (c :: seen) t.
Proof. reflexivity. Qed.

Lemma lowerFrom_ascii (w : str) :
  Ascii w ->
  forall seen post,
    lowerFrom seen (w ++ post) = map lowerChar w ++ lowerFrom (rev w ++ seen) post.
Proof.
  induction 1 as [|c w C _ IH]; intros seen post; [reflexivity |].
  cbn [app map rev]. rewrite lowerFrom_cons.
  rewrite (ascii_not_surrogate c _ C), (lowerUnit_ascii seen c _ C), IH.
  now rewrite <- app_assoc.
Qed.

Lemma lowerFrom_skip (n : nat) :
  forall pre seen a rest,
    List.length pre <= n -> (a < 128)%N ->
    exists out seen',
      lowerFrom seen (pre ++ a :: rest) = out ++ lowerFrom seen' (a :: rest).
Proof.
  induction n as [|n IH]; intros pre seen a rest L A.
  - destruct pre; [| simpl in L; lia]. exists [], seen. reflexivity.
  - destruct pre as [|c pre]; [exists [], seen; reflexivity |].
    cbn [app]. rewrite lowerFrom_cons.
    destruct (pairStarts c (pre ++ a :: rest)) eqn:P.
    + destruct pre as [|d pre].
      * unfold pairStarts in P. simpl in P.
        rewrite (ascii_not_low a A), andb_false_r in P. discriminate P.
      * cbn [app]. simpl in L.
        destruct (IH pre (codePoint c d :: seen) a rest) as [out [seen' E]];
          [lia | exact A |].
        exists (mapPair lowerAstral c d ++ out), seen'.
        rewrite <- app_assoc. f_equal. exact E.
    + simpl in L.
      destruct (IH pre (c :: seen) a rest) as [out [seen' E]]; [lia | exact A |].
      exists (lowerUnit seen c (pre ++ a :: rest) ++ out), seen'.
      rewrite <- app_assoc. f_equal. exact E.
Qed.

(** Text of ASCII letters in any case is found in lower case in the
    lower-cased whole. *)
Lemma Infix_toLowerCase_ascii (pre w post : str) :
  Ascii w -> Infix (map lowerChar w) (toLowerCase (pre ++ w ++ post)).
Proof.
  intros A. unfold toLowerCase. destruct w as [|a w].
  - exists [], (lowerFrom [] (pre ++ post)). reflexivity.
  - pose proof (Forall_inv A) as Ha.
    destruct (lowerFrom_skip (List.length pre) pre [] a (w ++ post) (le_n _) Ha)
      as [out [seen' E]].
    exists out, (lowerFrom (rev (a :: w) ++ seen') post).
    transitivity (out ++ lowerFrom seen' ((a :: w) ++ post)); [exact E |].
    f_equal. exact (lowerFrom_ascii (a :: w) A seen' post).
Qed.

Lemma lowerChar_ascii (c : char) : (lowerChar c < 128)%N -> (c < 128)%N.
Proof.
  unfold lowerChar, isUpperAZ, inRange.
  destruct (N.leb_spec 65 c), (N.leb_spec c 90); simpl; lia.
Qed.

Lemma map_lowerChar_Ascii (w v : str) :
  map lowerChar w = v -> Ascii v -> Ascii w.
Proof.
  intros <- A. unfold Ascii in *. rewrite Forall_forall in *.
  intros c I. apply lowerChar_ascii, A. now apply in_map.
Qed.

Lemma Ascii_forallb (w : str) :
  forallb (fun c => N.ltb c 128) w = true -> Ascii w.
Proof.
  intros H. apply Forall_forall. rewrite forallb_forall in H.
  intros c I. now apply N.ltb_lt, H.
Qed.

(** A word of ASCII letters, in any case of its letters, is found in the
    lower-cased text around it. *)
Lemma Infix_any_case (word pre w post : str) :
  forallb (fun c => N.ltb c 128) word = true ->
  map lowerChar w = word ->
  Infix word (toLowerCase (pre ++ w ++ post)).
Proof.
  intros A E. rewrite <- E. apply Infix_toLowerCase_ascii.
  apply (map_lowerChar_Ascii w word E). now apply Ascii_forallb.
Qed.

(** *** The upper case of one code unit *)

Lemma assoc_In (c : N) (table : list (N * list N)) (v : list N) :
  assoc c table = Some v -> In (c, v) table.
Proof.
  induction table as [|[k u] table IH]; simpl; [discriminate |].
  destruct (N.eqb_spec c k); [intros E; injection E as ->; subst; now left |].
  intros E. right. now apply IH.
Qed.

Lemma toUpperCase_unit (c : char) :
  toUpperCase [c] = mapUnit upperChar upperBmp c.
Proof.
  cbn [toUpperCase]. unfold pairStarts. rewrite andb_false_r. apply app_nil_r.
Qed.

Lemma upperBmp_images :
  forallb (fun e => match snd e with
                    | [] => false
                    | x :: l => forallb (fun y => negb (isSpace y)) (x :: l)
                    end) upperBmp = true.
Proof. vm_compute. reflexivity. Qed.

Lemma not_space_33_159 (x : char) : (33 <= x <= 159)%N -> isSpace x = false.
Proof.
  intros H. unfold isSpace, inRange.
  repeat match goal with
         | |- context [N.leb ?a ?b] => destruct (N.leb_spec a b)
         | |- context [N.eqb ?a ?b] => destruct (N.eqb_spec a b)
         end; simpl; try reflexivity; lia.
Qed.

Lemma isSpace_upperChar (c : char) : isSpace (upperChar c) = isSpace c.
Proof.
  unfold upperChar. destruct (isLowerAZ c) eqn:L; [| reflexivity].
  unfold isLowerAZ, inRange in L. apply andb_true_iff in L.
  destruct L as [L1 L2]. apply N.leb_le in L1, L2.
  rewrite !not_space_33_159 by lia. reflexivity.
Qed.

(** The upper case of one code unit is never empty, and it has no
    whitespace unless the code unit is whitespace. *)
Lemma toUpperCase_unit_shape (c : char) :
  toUpperCase [c] <> [] /\
  (isSpace c = false -> forall x, In x (toUpperCase [c]) -> isSpace x = false).
Proof.
  rewrite toUpperCase_unit. unfold mapUnit.
  destruct (N.ltb c 128).
  - split; [discriminate |]. intros S x [<- | []]. now rewrite isSpace_upperChar.
  - destruct (assoc c upperBmp) as [v|] eqn:E.
    + apply assoc_In in E.
      pose proof upperBmp_images as F. rewrite forallb_forall in F.
      specialize (F _ E). cbn [snd] in F. destruct v as [|y v]; [discriminate F |].
      split; [discriminate |]. intros _ x I.
      rewrite forallb_forall in F. apply negb_true_iff. now apply F.
    + split; [discriminate |]. intros S x [<- | []]. exact S.
Qed.

(** Case conversion beyond the letters a-z: the Kelvin sign, the dotted
    capital I, the final sigma, a supplementary letter, and upper-casing
    that lengthens the text. *)
Example toLowerCase_kelvin_sign : toLowerCase [8490%N] = lit "k".
Proof. vm_compute. reflexivity. Qed.

Example toLowerCase_dotted_capital_i : toLowerCase [304%N] = [105%N; 775%N].
Proof. vm_compute. reflexivity. Qed.

Example toLowerCase_final_sigma :
  toLowerCase [913%N; 931%N] = [945%N; 962%N] /\
  toLowerCase [913%N; 931%N; 913%N] = [945%N; 963%N; 945%N].
Proof. split; vm_compute; reflexivity. Qed.

Example toLowerCase_surrogate_pair :
  toLowerCase [55297%N; 56320%N] = [55297%N; 56360%N].
Proof. vm_compute. reflexivity. Qed.

Example capitalize_beyond_ascii :
  capitalize [233%N; 97%N] = [201%N; 97%N] /\
  capitalize [223%N; 120%N] = lit "SSx" /\
  capitalize (lit "next week") = lit "Next week".
Proof. repeat split; vm_compute; reflexivity. Qed.

(** *** Counting hits *)

Lemma Hits_filter (words : list str) (s : str) :
  Hits words s (List.length (filter (fun word => includes s word) words)).
Proof.
  induction words as [|w ws IH]; simpl.
  - constructor.
  - destruct (includes s w) eqn:E; simpl.
    + apply Hits_yes; [now apply includes_infix | exact IH].
    + apply Hits_no; [now apply includes_not_infix | exact IH].
Qed.

Lemma Hits_unique (words : list str) (s : str) (n m : nat) :
  Hits words s n -> Hits words s m -> n = m.
Proof.
  intros H; revert m; induction H; intros m Hm; inversion Hm; subst;
    try reflexivity; try contradiction; auto.
Qed.

Lemma Hits_bound (words : list str) (s : str) (n : nat) :
  Hits words s n -> n <= List.length words.
Proof. induction 1; simpl; lia. Qed.

(* ================================================================== *)
(** ** Trimming *)

Lemma trimStart_nil (s : str) :
  trimStart s = [] <-> Forall (fun x => isSpace x = true) s.
Proof.
  induction s as [|c s IH]; simpl.
  - split; [constructor | reflexivity].
  - destruct (isSpace c) eqn:E.
    + rewrite IH. split; [now constructor | now inversion 1].
    + split; [discriminate | inversion 1; congruence].
Qed.

Lemma trimStart_head (s : str) (c : char) (t : str) :
  trimStart s = c :: t -> isSpace c = false.
Proof.
  induction s as [|x s IH]; simpl; [discriminate |].
  destruct (isSpace x) eqn:E; [exact IH | intros H; inversion H; subst; exact E].
Qed.

Lemma trim_nil (s : str) :
  trim s = [] <-> Forall (fun x => isSpace x = true) s.
Proof.
  unfold trim, trimEnd. split.
  - intros H.
    assert (H1 : trimStart (rev (trimStart s)) = []).
    { destruct (trimStart (rev (trimStart s))) as [|x l]; [reflexivity |].
      simpl in H. apply app_eq_nil in H. destruct H; discriminate. }
    apply trimStart_nil in H1.
    apply trimStart_nil.
    destruct (trimStart s) as [|c t] eqn:E; [reflexivity |].
    apply trimStart_head in E.
    assert (Hc : isSpace c = true).
    { rewrite Forall_forall in H1. apply H1, in_rev.
      rewrite rev_involutive. left. reflexivity. }
    congruence.
  - intros H. apply trimStart_nil in H. rewrite H. reflexivity.
Qed.

Lemma truthyOpt_trim_false (o : option str) :
  truthyOpt (option_map trim o) = false <-> Blank o.
Proof.
  destruct o as [c|]; simpl; [|tauto].
  rewrite truthy_false. apply trim_nil.
Qed.

(* ================================================================== *)
(** ** The matcher against the meaning of patterns *)

Lemma lastOr_app (prev : option char) (x y : str) :
  lastOr prev (x ++ y) = lastOr (lastOr prev x) y.
Proof. apply fold_left_app. Qed.

Lemma orElse_some (a b : option found) :
  orElse a b <> None <-> a <> None \/ b <> None.
Proof.
  destruct a, b; simpl; split; intros H; try tauto;
    try (left; discriminate); try (right; discriminate).
  destruct H; congruence.
Qed.

Lemma within_S (hi : option nat) (m : nat) :
  hi <> Some 0 -> (within hi (S m) <-> within (option_map pred hi) m).
Proof. destruct hi as [[|h]|]; simpl; [congruence | lia | tauto]. Qed.

Lemma within_0 (hi : option nat) : within hi 0.
Proof. destruct hi; simpl; [lia | exact I]. Qed.

Lemma rep_nil (p : char -> bool) (lo : nat) (hi : option nat) (k : cont)
    (prev : option char) (n : nat) (cap : option str) :
  rep p lo hi k prev [] n cap
  = match lo with O => k prev [] n cap | S _ => None end.
Proof. destruct hi as [[|h]|]; reflexivity. Qed.

Lemma rep_cons (p : char -> bool) (lo : nat) (hi : option nat) (k : cont)
    (prev : option char) (c : char) (t : str) (n : nat) (cap : option str) :
  hi <> Some 0 ->
  rep p lo hi k prev (c :: t) n cap
  = let stop := match lo with O => k prev (c :: t) n cap | S _ => None end in
    if p c
    then orElse (rep p (pred lo) (option_map pred hi) k (Some c) t (S n) cap) stop
    else stop.
Proof. destruct hi as [[|h]|]; [congruence | reflexivity | reflexivity]. Qed.

(** A repetition that cannot take a code unit succeeds iff it may stop. *)
Lemma rep_stop (p : char -> bool) (k : cont) (cap : option str)
    (lo : nat) (hi : option nat) (prev : option char) (n : nat) (rest : str) :
  (forall x post,
     rest = x ++ post -> forallb p x = true -> within hi (List.length x) ->
     x = []) ->
  (match lo with O => k prev rest n cap | S _ => None end <> None <->
   exists x post,
     rest = x ++ post /\ forallb p x = true /\ lo <= List.length x /\
     within hi (List.length x) /\
     k (lastOr prev x) post (n + List.length x) cap <> None).
Proof.
  intros Only. split.
  - intros H. destruct lo; [| congruence].
    exists [], rest. simpl. rewrite Nat.add_0_r.
    repeat split; auto. apply within_0.
  - intros [x [post [E [F [L [W K]]]]]].
    pose proof (Only x post E F W) as ->. simpl in *.
    subst post. destruct lo; [| lia]. now rewrite Nat.add_0_r in K.
Qed.

(** A greedy repetition succeeds iff some admissible number of code units
    of the class can be taken before the continuation succeeds. *)
Lemma rep_sound (p : char -> bool) (k : cont) (cap : option str) (rest : str) :
  forall lo hi prev n,
    rep p lo hi k prev rest n cap <> None <->
    exists x post,
      rest = x ++ post /\ forallb p x = true /\ lo <= List.length x /\
      within hi (List.length x) /\
      k (lastOr prev x) post (n + List.length x) cap <> None.
Proof.
  induction rest as [|c t IH]; intros lo hi prev n.
  - rewrite rep_nil. apply rep_stop.
    intros x post E _ _. symmetry in E. apply app_eq_nil in E. tauto.
  - assert (D : hi = Some 0 \/ hi <> Some 0)
      by (destruct hi as [[|h]|];
          [left; reflexivity | right; discriminate | right; discriminate]).
    destruct D as [-> | Hhi].
    + cbn [rep]. apply rep_stop.
      intros x post _ _ W. destruct x; [reflexivity | simpl in W; lia].
    + rewrite rep_cons by exact Hhi. cbv zeta. destruct (p c) eqn:Pc.
      * rewrite orElse_some, IH. split.
        -- intros [[x [post [E [F [L [W K]]]]]] | H].
           ++ exists (c :: x), post. subst t. simpl. rewrite Pc, F.
              rewrite Nat.add_succ_r. simpl in K.
              apply (within_S hi (List.length x) Hhi) in W.
              repeat split; auto; lia.
           ++ destruct lo; [| congruence].
              exists [], (c :: t). simpl. rewrite Nat.add_0_r.
              repeat split; auto. apply within_0.
        -- intros [[|y x] [post [E [F [L [W K]]]]]].
           ++ right. simpl in *. subst post. destruct lo; [| lia].
              now rewrite Nat.add_0_r in K.
           ++ left. simpl in E. inversion E; subst y t.
              simpl in F. rewrite Pc in F. simpl in F, L, K.
              rewrite Nat.add_succ_r in K.
              apply (within_S hi (List.length x) Hhi) in W.
              exists x, post. repeat split; auto; simpl; lia.
      * apply rep_stop. intros [|y x] post E F _; [reflexivity |].
        simpl in E. inversion E; subst y. simpl in F. rewrite Pc in F.
        discriminate.
Qed.

Lemma run_sound (r : re) :
  forall k prev rest n cap,
    capfree k ->
    (run r k prev rest n cap <> None <->
     exists x post,
       rest = x ++ post /\ lang r prev x post /\
       k (lastOr prev x) post (n + List.length x) cap <> None).
Proof.
  induction r as [| p | a IHa b IHb | a IHa b IHb | p lo hi | a IHa | | | p];
    intros k prev rest n cap Hk; cbn [run lang].
  - split.
    + intros H. exists [], rest. simpl. now rewrite Nat.add_0_r.
    + intros [x [post [E [-> K]]]]. simpl in *. subst post.
      now rewrite Nat.add_0_r in K.
  - split.
    + intros H. destruct rest as [|c t]; [congruence |].
      destruct (p c) eqn:Pc; [| congruence].
      exists [c], t. simpl. rewrite Nat.add_1_r. eauto 6.
    + intros [x [post [E [[c [-> Pc]] K]]]]. simpl in *. subst rest.
      rewrite Pc. now rewrite Nat.add_1_r in K.
  - assert (Hb : capfree (run b k)).
    { intros prev' rest' n' c c' H.
      apply (IHb k prev' rest' n' c Hk) in H.
      apply (IHb k prev' rest' n' c' Hk).
      destruct H as [x [post [E [L K]]]]. exists x, post. eauto. }
    rewrite (IHa (run b k) prev rest n cap Hb). split.
    + intros [x1 [post1 [E1 [L1 K1]]]].
      apply (IHb k _ _ _ _ Hk) in K1. destruct K1 as [x2 [post [E2 [L2 K]]]].
      exists (x1 ++ x2), post. subst post1 rest.
      rewrite <- app_assoc, lastOr_app, length_app, Nat.add_assoc. eauto 8.
    + intros [x [post [E [[x1 [x2 [-> [L1 L2]]]] K]]]].
      exists x1, (x2 ++ post). rewrite <- app_assoc in E.
      repeat split; auto.
      apply (IHb k _ _ _ _ Hk). exists x2, post.
      rewrite lastOr_app, length_app, Nat.add_assoc in K. auto.
  - rewrite orElse_some, (IHa k prev rest n cap Hk), (IHb k prev rest n cap Hk).
    split.
    + intros [[x [post [E [L K]]]] | [x [post [E [L K]]]]]; exists x, post; auto.
    + intros [x [post [E [[L | L] K]]]]; [left | right]; exists x, post; auto.
  - rewrite rep_sound. split; intros [x [post H]]; exists x, post; tauto.
  - set (k' := fun prev' rest' n' (_ : option str) =>
                 k prev' rest' n' (Some (firstn (n' - n) rest))).
    assert (Hk' : capfree k') by (intros ? ? ? ? ? H; exact H).
    rewrite (IHa k' prev rest n cap Hk'). unfold k'.
    split; intros [x [post [E [L K]]]]; exists x, post;
      repeat split; auto; revert K; apply Hk.
  - split.
    + intros H. destruct (xorb _ _) eqn:B; [| congruence].
      exists [], rest. simpl. now rewrite Nat.add_0_r.
    + intros [x [post [E [[-> B] K]]]]. simpl in *. subst post.
      rewrite B. now rewrite Nat.add_0_r in K.
  - split.
    + intros H. destruct prev; [congruence |].
      exists [], rest. simpl. now rewrite Nat.add_0_r.
    + intros [x [post [E [[-> ->] K]]]]. simpl in *. subst post.
      now rewrite Nat.add_0_r in K.
  - split.
    + intros H. destruct prev as [c|]; [| congruence].
      destruct (p c) eqn:Pc; [| congruence].
      exists [], rest. simpl. rewrite Nat.add_0_r. eauto 7.
    + intros [x [post [E [[-> [c [-> Pc]]] K]]]]. simpl in *. subst post.
      rewrite Pc. now rewrite Nat.add_0_r in K.
Qed.

Lemma matchAt_sound (r : re) (prev : option char) (rest : str) :
  matchAt r prev rest <> None <->
  exists x post, rest = x ++ post /\ lang r prev x post.
Proof.
  unfold matchAt. rewrite run_sound by (intros ? ? ? ? ? _; discriminate).
  split; intros [x [post H]]; exists x, post; [tauto |].
  repeat split; try tauto. discriminate.
Qed.

Lemma searchFrom_sound (r : re) (rest : str) :
  forall prev i,
    searchFrom r prev rest i <> None <->
    exists pre x post,
      rest = pre ++ x ++ post /\ lang r (lastOr prev pre) x post.
Proof.
  induction rest as [|c t IH]; intros prev i; cbn [searchFrom].
  - destruct (matchAt r prev []) as [[n cap]|] eqn:M.
    + split; [intros _ | discriminate].
      assert (M' : matchAt r prev [] <> None) by congruence.
      apply matchAt_sound in M'. destruct M' as [x [post [E L]]].
      exists [], x, post. auto.
    + split; [congruence |].
      intros [pre [x [post [E L]]]].
      symmetry in E. apply app_eq_nil in E. destruct E as [-> E].
      assert (M' : matchAt r prev [] <> None)
        by (apply matchAt_sound; exists x, post; auto).
      congruence.
  - destruct (matchAt r prev (c :: t)) as [[n cap]|] eqn:M.
    + split; [intros _ | discriminate].
      assert (M' : matchAt r prev (c :: t) <> None) by congruence.
      apply matchAt_sound in M'. destruct M' as [x [post [E L]]].
      exists [], x, post. auto.
    + rewrite IH. split.
      * intros [pre [x [post [E L]]]]. exists (c :: pre), x, post.
        subst t. auto.
      * intros [[|y pre] [x [post [E L]]]].
        -- assert (M' : matchAt r prev (c :: t) <> None)
             by (apply matchAt_sound; exists x, post; auto).
           congruence.
        -- simpl in E. inversion E; subst y t. exists pre, x, post. auto.
Qed.

(** The matcher finds a match exactly where the pattern has one. *)
Lemma test_Occurs (r : re) (s : str) : test r s = true <-> Occurs r s.
Proof.
  unfold test, exec, Occurs. rewrite <- searchFrom_sound with (i := 0).
  destruct (searchFrom r None s 0); split; congruence.
Qed.

Lemma lang_txt (w : string) (prev : option char) (x post : str) :
  lang (txt w) prev x post <-> x = lit w.
Proof.
  unfold txt, lit. revert prev x.
  induction (list_ascii_of_string w) as [|a l IH]; intros prev x; simpl.
  - tauto.
  - split.
    + intros [x1 [x2 [-> [[c [-> C]] L]]]]. apply IH in L. subst x2.
      apply N.eqb_eq in C. subst c. reflexivity.
    + intros ->. exists [N_of_ascii a], (map N_of_ascii l).
      split; [reflexivity |]. split.
      * exists (N_of_ascii a). split; [reflexivity | apply N.eqb_refl].
      * now apply IH.
Qed.

Lemma isDigit_isWord (c : char) : isDigit c = true -> isWord c = true.
Proof. unfold isWord. intros ->. now rewrite !orb_true_r. Qed.

Lemma lastOr_forallb (q : char -> bool) (a : str) :
  forall prev,
    a <> [] -> forallb q a = true ->
    exists c, lastOr prev a = Some c /\ q c = true.
Proof.
  induction a as [|c t IH]; intros prev N F; [congruence |].
  simpl in F. apply andb_true_iff in F. destruct F as [Qc F].
  destruct t as [|d t].
  - exists c. auto.
  - apply (IH (Some c)); [discriminate | exact F].
Qed.

Lemma xorb_word_l (b : bool) : xorb b true = true <-> b = false.
Proof. destruct b; simpl; split; congruence. Qed.

Lemma xorb_word_r (b : bool) : xorb true b = true <-> b = false.
Proof. destruct b; simpl; split; congruence. Qed.

Lemma Digits12_word (a : str) :
  Digits12 a ->
  (exists c t, a = c :: t /\ isWord c = true) /\
  (forall prev, isWordOpt (lastOr prev a) = true).
Proof.
  intros [F [L1 L2]]. split.
  - destruct a as [|c t]; [simpl in L1; lia |].
    simpl in F. apply andb_true_iff in F.
    exists c, t. split; [reflexivity | now apply isDigit_isWord].
  - intros prev.
    destruct (lastOr_forallb isDigit a prev) as [c [E D]];
      [destruct a; [simpl in L1; lia | discriminate] | exact F |].
    rewrite E. simpl. now apply isDigit_isWord.
Qed.

(** The date pattern finds the word-bounded tokens d{1,2}/d{1,2}. *)
Lemma test_reDateToken (s : str) : test reDateToken s = true <-> DateToken s.
Proof.
  rewrite test_Occurs. unfold Occurs, DateToken, reDateToken, upTo2.
  split.
  - intros [pre [x [post [E L]]]]. cbn [lang within] in L.
    destruct L as (x0 & x1 & Ex & (Ex0 & B1) & L).
    destruct L as (a & x2 & Ex1 & (Fa & La1 & La2) & L).
    destruct L as (sl & x3 & Ex2 & (c & Esl & C) & L).
    destruct L as (b & x4 & Ex3 & (Fb & Lb1 & Lb2) & Ex4 & B2).
    subst x x0 x1 x2 sl x3 x4.
    apply N.eqb_eq in C. subst c.
    assert (Da : Digits12 a) by (repeat split; assumption).
    assert (Db : Digits12 b) by (repeat split; assumption).
    exists pre, a, b, post. rewrite app_nil_r in *. simpl in E.
    split; [exact E |]. split; [exact Da |]. split; [exact Db |].
    destruct (Digits12_word a Da) as [[d [t [-> Wd]]] _].
    destruct (Digits12_word b Db) as [_ Wb].
    simpl in B1. rewrite Wd in B1. apply xorb_word_l in B1.
    rewrite Wb in B2. apply xorb_word_r in B2.
    split; assumption.
  - intros [pre [a [b [post [E [Da [Db [W1 W2]]]]]]]].
    exists pre, (a ++ ch "/" :: b), post. split; [exact E |].
    cbn [lang within].
    destruct (Digits12_word a Da) as [[d [t [Ea Wd]]] _].
    pose proof (proj2 (Digits12_word b Db)) as Wb.
    destruct Da as [Fa [La1 La2]], Db as [Fb [Lb1 Lb2]].
    exists [], (a ++ ch "/" :: b). split; [reflexivity |]. split.
    { split; [reflexivity |]. rewrite Ea. simpl. rewrite Wd.
      now apply xorb_word_l. }
    exists a, (ch "/" :: b). split; [reflexivity |]. split; [auto |].
    exists [ch "/"], b. split; [reflexivity |]. split.
    { exists (ch "/"). split; reflexivity. }
    exists b, []. split; [now rewrite app_nil_r |]. split; [auto |].
    split; [reflexivity |]. rewrite Wb. now apply xorb_word_r.
Qed.

(** The phrase pattern finds the three phrases as whole words. *)
Lemma test_reSoon (s : str) : test reSoon s = true <-> SoonPhrase s.
Proof.
  rewrite test_Occurs. unfold Occurs, SoonPhrase, reSoon. split.
  - intros [pre [x [post [E L]]]]. cbn [lang] in L.
    destruct L as (x0 & x1 & Ex & (Ex0 & B1) & L).
    destruct L as (w & x2 & Ex1 & L & Ex2 & B2).
    subst x x0 x1 x2.
    rewrite !lang_txt in L. rewrite app_nil_r in *. simpl in E.
    exists pre, w, post. split; [exact E |].
    assert (I : In w [lit "next week"; lit "soon"; lit "follow up"])
      by (simpl; intuition auto).
    split; [exact I |].
    destruct L as [-> | [-> | ->]];
      simpl in B1, B2; apply xorb_word_l in B1; apply xorb_word_r in B2;
      split; assumption.
  - intros [pre [w [post [E [I [W1 W2]]]]]].
    exists pre, w, post. split; [exact E |]. cbn [lang].
    exists [], w. split; [reflexivity |].
    assert (L : lang (txt "next week") (lastOr (lastOr None pre) []) w ([] ++ post) \/
                lang (txt "soon") (lastOr (lastOr None pre) []) w ([] ++ post) \/
                lang (txt "follow up") (lastOr (lastOr None pre) []) w ([] ++ post)).
    { rewrite !lang_txt. simpl in I. intuition auto. }
    simpl in I.
    destruct I as [<- | [<- | [<- | []]]];
      (split; [split; [reflexivity | simpl; now apply xorb_word_l] |]);
      (eexists _, []; split; [now rewrite app_nil_r |]); (split; [exact L |]);
      (split; [reflexivity | simpl; now apply xorb_word_r]).
Qed.

(* ================================================================== *)
(** ** Runs of a class *)

Section Runs.
Variable p : char -> bool.

(** A greedy repetition followed by nothing takes the whole run. *)
Lemma rep_greedy (rest : str) :
  forall lo prev n cap,
    rep p lo None (fun _ _ n cap => Some (n, cap)) prev rest n cap
    = if Nat.leb lo (spanLen p rest) then Some (n + spanLen p rest, cap)
      else None.
Proof.
  induction rest as [|c t IH]; intros lo prev n cap.
  - simpl. destruct lo; simpl; [now rewrite Nat.add_0_r | reflexivity].
  - cbn [rep spanLen option_map]. destruct (p c).
    + rewrite IH.
      destruct (Nat.leb (pred lo) (spanLen p t)) eqn:E.
      * apply Nat.leb_le in E.
        assert (E' : Nat.leb lo (S (spanLen p t)) = true)
          by (apply Nat.leb_le; lia).
        rewrite E'. simpl. now rewrite Nat.add_succ_r.
      * apply Nat.leb_gt in E.
        assert (E' : Nat.leb lo (S (spanLen p t)) = false)
          by (apply Nat.leb_gt; lia).
        rewrite E'. destruct lo; [lia | reflexivity].
    + destruct lo; simpl; [now rewrite Nat.add_0_r | reflexivity].
Qed.

Lemma matchAt_plus (prev : option char) (rest : str) :
  matchAt (plus p) prev rest
  = match spanLen p rest with
    | O => None
    | S n => Some (S n, None)
    end.
Proof.
  unfold matchAt, plus. cbn [run]. rewrite rep_greedy.
  destruct (spanLen p rest); reflexivity.
Qed.

(** Replacing every run of [p]. *)
Lemma replaceGo_plus (repl : str) (rest : str) :
  (forall prev, replaceGo (plus p) repl prev rest 0 = collapse p repl false rest) /\
  (forall prev skip,
     skip = spanLen p rest ->
     replaceGo (plus p) repl prev rest skip = collapse p repl true rest).
Proof.
  induction rest as [|c t [IH0 IH1]].
  - split; [intros prev | intros prev skip ->]; simpl;
      rewrite ?matchAt_plus; reflexivity.
  - assert (H0 : forall prev,
               replaceGo (plus p) repl prev (c :: t) 0
               = collapse p repl false (c :: t)).
    { intros prev. cbn [replaceGo]. rewrite matchAt_plus.
      cbn [spanLen collapse]. destruct (p c).
      - now rewrite IH1.
      - now rewrite IH0. }
    split; [exact H0 |].
    intros prev skip ->. cbn [spanLen]. destruct (p c) eqn:E.
    + cbn [replaceGo collapse]. rewrite E. now rewrite IH1.
    + rewrite H0. cbn [collapse]. now rewrite E.
Qed.

Lemma replaceAll_plus (repl s : str) :
  replaceAll (plus p) repl s = collapse p repl false s.
Proof. apply replaceGo_plus. Qed.

(** Splitting at every run of [p]: one piece more than there are runs. *)
Lemma splitGo_plus_length (rest : str) :
  (forall prev cur,
     List.length (splitGo (plus p) prev rest 0 cur) = 1 + runsFrom p false rest) /\
  (forall prev cur skip,
     skip = spanLen p rest ->
     List.length (splitGo (plus p) prev rest skip cur) = 1 + runsFrom p true rest).
Proof.
  induction rest as [|c t [IH0 IH1]].
  - split; [intros prev cur | intros prev cur skip ->]; reflexivity.
  - assert (H0 : forall prev cur,
               List.length (splitGo (plus p) prev (c :: t) 0 cur)
               = 1 + runsFrom p false (c :: t)).
    { intros prev cur. cbn [splitGo]. rewrite matchAt_plus.
      cbn [spanLen runsFrom]. destruct (p c).
      - cbn [List.length]. now rewrite IH1.
      - now rewrite IH0. }
    split; [exact H0 |].
    intros prev cur skip ->. cbn [spanLen]. destruct (p c) eqn:E.
    + cbn [splitGo runsFrom]. rewrite E. now rewrite IH1.
    + rewrite H0. cbn [runsFrom]. now rewrite E.
Qed.

Lemma split_plus_length (s : str) :
  s <> [] -> List.length (split (plus p) s) = 1 + runsFrom p false s.
Proof.
  destruct s as [|c t]; [congruence | intros _].
  unfold split. apply splitGo_plus_length.
Qed.
End Runs.

(** Whitespace runs against tokens. *)
Lemma spaceRuns_tokens (s : str) :
  runsFrom isSpace true s + 1
  = tokensFrom false s + (if endsInSpace true s then 1 else 0) /\
  runsFrom isSpace false s
  = tokensFrom true s + (if endsInSpace false s then 1 else 0).
Proof.
  induction s as [|c t [IHa IHb]]; [split; reflexivity |].
  cbn [runsFrom tokensFrom endsInSpace].
  destruct (isSpace c); split; lia.
Qed.

(** The number of pieces [split(/\s+/)] gives: the tokens, and an empty
    piece for whitespace at the start and one for whitespace at the end. *)
Lemma split_spaces_length (h : str) :
  h <> [] ->
  List.length (split reSpaces h)
  = wordCount h + (if startsWithSpace h then 1 else 0)
      + (if endsInSpace false h then 1 else 0).
Proof.
  intros H. unfold reSpaces. rewrite (split_plus_length isSpace h H).
  destruct h as [|c t]; [congruence |].
  unfold wordCount. cbn [runsFrom tokensFrom endsInSpace startsWithSpace].
  destruct (spaceRuns_tokens t) as [Ha Hb].
  destruct (isSpace c); lia.
Qed.

(* ================================================================== *)
(** ** Sentiment and priority *)

Lemma Urgent_existsb (s : str) :
  existsb (fun word => includes s word) URGENCY_WORDS = true <-> Urgent s.
Proof.
  rewrite existsb_exists. unfold Urgent.
  split; intros [w [Hin H]]; exists w; split; auto; now apply includes_infix.
Qed.

(** C1: the sentiment of a content is decided by two counts over its
    lower-cased text: how many words of the positive list and how many of
    the negative list occur in it as a substring, each word counting once.
    It is positive iff the positive count is the larger, negative iff the
    negative count is the larger, and neutral iff the counts are equal.
    The text is lower-cased first: a list word written in any letter case
    in the content occurs in the lower-cased text. *)
Theorem detectSentiment_by_counts (content : str) :
  POSITIVE_WORDS
    = map lit ["thank"; "appreciate"; "great"; "glad"; "pleased"; "happy";
               "excited"]%string /\
  NEGATIVE_WORDS
    = map lit ["concern"; "issue"; "problem"; "delayed"; "delay"; "blocked";
               "urgent"; "frustrated"; "disappointed"]%string /\
  (exists p n,
     Hits POSITIVE_WORDS (toLowerCase content) p /\
     Hits NEGATIVE_WORDS (toLowerCase content) n /\
     (detectSentiment content = positive <-> n < p) /\
     (detectSentiment content = negative <-> p < n) /\
     (detectSentiment content = neutral <-> p = n)) /\
  (forall word pre w post,
     In word (POSITIVE_WORDS ++ NEGATIVE_WORDS) ->
     content = pre ++ w ++ post -> map lowerChar w = word ->
     Infix word (toLowerCase content)).
Proof.
  split; [reflexivity | split; [reflexivity |]]. split.
  - set (s := toLowerCase content).
    exists (List.length (filter (fun word => includes s word) POSITIVE_WORDS)),
           (List.length (filter (fun word => includes s word) NEGATIVE_WORDS)).
    split; [apply Hits_filter | split; [apply Hits_filter |]].
    unfold detectSentiment. fold s.
    set (p := List.length (filter _ POSITIVE_WORDS)).
    set (n := List.length (filter _ NEGATIVE_WORDS)).
    destruct (Nat.eqb p n) eqn:E.
    + apply Nat.eqb_eq in E.
      repeat split; intros; try discriminate; try lia.
    + apply Nat.eqb_neq in E.
      destruct (Nat.ltb n p) eqn:L;
        [apply Nat.ltb_lt in L | apply Nat.ltb_ge in L];
        repeat split; intros; try discriminate; try lia.
  - intros word pre w post I -> E. apply Infix_any_case; [| exact E].
    assert (A : forallb (forallb (fun c => N.ltb c 128))
                  (POSITIVE_WORDS ++ NEGATIVE_WORDS) = true)
      by (vm_compute; reflexivity).
    rewrite forallb_forall in A. now apply A.
Qed.

Lemma detectSentiment_by_counts_witness :
  Infix (lit "great") (toLowerCase (lit "THANKS, that is GrEaT news")).
Proof.
  exact (proj2 (proj2 (proj2
           (detectSentiment_by_counts (lit "THANKS, that is GrEaT news"))))
           (lit "great") (lit "THANKS, that is ") (lit "GrEaT") (lit " news")
           (or_intror (or_intror (or_introl eq_refl))) eq_refl eq_refl).
Defined.

(** C2 (as the code has it): the priority rules apply in order and the
    first match wins: high when the lower-cased content contains an
    urgency word as a substring; else medium when it has a word-bounded
    token of the shape d{1,2}/d{1,2}; else medium when it has one of the
    phrases next week, soon, follow up as whole words, that is with no
    word character right before or after; else low.  A content that
    contains ASAP in any letter case is high whatever else it contains. *)
Theorem determinePriority_precedence (content : str) :
  let normalized := toLowerCase content in
  URGENCY_WORDS
    = map lit ["urgent"; "asap"; "immediately"; "priority"; "important"]%string /\
  (Urgent normalized -> determinePriority content = high) /\
  (~ Urgent normalized -> DateToken normalized ->
     determinePriority content = medium) /\
  (~ Urgent normalized -> ~ DateToken normalized -> SoonPhrase normalized ->
     determinePriority content = medium) /\
  (~ Urgent normalized -> ~ DateToken normalized -> ~ SoonPhrase normalized ->
     determinePriority content = low) /\
  (forall pre w post,
     content = pre ++ w ++ post -> map lowerChar w = lit "asap" ->
     determinePriority content = high).
Proof.
  intros normalized.
  assert (Hhigh : Urgent normalized -> determinePriority content = high).
  { intros U. unfold determinePriority. fold normalized.
    apply Urgent_existsb in U. now rewrite U. }
  assert (Hrest : ~ Urgent normalized ->
                  determinePriority content =
                  if test reDateToken normalized then medium
                  else if test reSoon normalized then medium else low).
  { intros U. unfold determinePriority. fold normalized.
    destruct (existsb _ URGENCY_WORDS) eqn:E; [|reflexivity].
    apply Urgent_existsb in E. contradiction. }
  assert (Hdate : ~ DateToken normalized -> test reDateToken normalized = false).
  { intros D. destruct (test reDateToken normalized) eqn:E; [|reflexivity].
    apply test_reDateToken in E. contradiction. }
  assert (Hsoon : ~ SoonPhrase normalized -> test reSoon normalized = false).
  { intros D. destruct (test reSoon normalized) eqn:E; [|reflexivity].
    apply test_reSoon in E. contradiction. }
  split; [reflexivity |].
  split; [exact Hhigh |].
  split; [intros U D; apply test_reDateToken in D;
          rewrite (Hrest U), D; reflexivity |].
  split; [intros U D S; apply test_reSoon in S;
          rewrite (Hrest U), (Hdate D), S; reflexivity |].
  split; [intros U D S; rewrite (Hrest U), (Hdate D), (Hsoon S); reflexivity |].
  intros pre w post -> Hw. apply Hhigh.
  exists (lit "asap"). split.
  - simpl. auto.
  - now apply Infix_any_case.
Qed.

Lemma determinePriority_precedence_witness :
  determinePriority (lit "Call me AsAp, by 5/12 or next week") = high.
Proof.
  exact (proj2 (proj2 (proj2 (proj2 (proj2
           (determinePriority_precedence
              (lit "Call me AsAp, by 5/12 or next week"))))))
           (lit "Call me ") (lit "AsAp") (lit ", by 5/12 or next week")
           eq_refl eq_refl).
Defined.

(** C2 as the specification words it fails: a content can contain the
    phrase soon, with no urgency word and no date token, and still be low,
    because the phrase is inside a longer word. *)
Lemma determinePriority_sooner_is_low :
  Infix (lit "soon") (toLowerCase (lit "We can talk sooner or later")) /\
  ~ Urgent (toLowerCase (lit "We can talk sooner or later")) /\
  ~ DateToken (toLowerCase (lit "We can talk sooner or later")) /\
  determinePriority (lit "We can talk sooner or later") = low.
Proof.
  split; [apply includes_infix; vm_compute; reflexivity |].
  split; [intros U; apply Urgent_existsb in U; vm_compute in U; discriminate U |].
  split; [intros D; apply test_reDateToken in D; vm_compute in D; discriminate D |].
  vm_compute. reflexivity.
Qed.

(* ================================================================== *)
(** ** The end-to-end example *)

(** C3 (as the code has it): on the example content, without thread
    history or persona, the sentiment is neutral (one positive hit, thank,
    and one negative hit, urgent), the priority is high, the tags are Hot,
    Neutral and Action items, and there is one task: the content is a
    single line, so the description is the whole content, and no due date
    is found, since a weekday followed by a full stop is none of the due
    shapes. *)
Theorem analyze_example :
  let r := analyzeEmail exampleContent None None in
  Hits POSITIVE_WORDS (toLowerCase exampleContent) 1 /\
  Hits NEGATIVE_WORDS (toLowerCase exampleContent) 1 /\
  Infix (lit "thank") (toLowerCase exampleContent) /\
  Infix (lit "urgent") (toLowerCase exampleContent) /\
  sentiment r = neutral /\
  priority r = high /\
  tasks r = [ {| description := exampleContent; due := None; owner := None |} ] /\
  tags r = [lit "Hot"; lit "Neutral"; lit "Action items"] /\
  In (lit "Hot") (tags r) /\ In (lit "Action items") (tags r).
Proof.
  intros r.
  split; [exact (Hits_filter POSITIVE_WORDS (toLowerCase exampleContent)) |].
  split; [exact (Hits_filter NEGATIVE_WORDS (toLowerCase exampleContent)) |].
  split; [apply includes_infix; vm_compute; reflexivity |].
  split; [apply includes_infix; vm_compute; reflexivity |].
  assert (T : tags r = [lit "Hot"; lit "Neutral"; lit "Action items"])
    by (vm_compute; reflexivity).
  repeat split; try (vm_compute; reflexivity); rewrite T; simpl; auto.
Qed.

(** C3 as the specification words it fails: the task list is not the one
    sentence with the due date Thursday. *)
Lemma analyze_example_tasks_differ :
  tasks (analyzeEmail exampleContent None None)
  <> [ {| description := lit "Please update the docs by Thursday.";
          due := Some (lit "Thursday");
          owner := None |} ].
Proof. vm_compute. intros H. discriminate H. Qed.

(* ================================================================== *)
(** ** The pipelines on small inputs *)

Example priority_soon_is_a_whole_word :
  determinePriority (lit "We can talk sooner or later") = low /\
  determinePriority (lit "We can talk soon.") = medium.
Proof. split; vm_compute; reflexivity. Qed.

(** The content is lower-cased as JavaScript does it: the Kelvin sign
    becomes the letter k. *)
Example sentiment_lower_cases_the_kelvin_sign :
  detectSentiment (lit "THAN" ++ [8490%N] ++ lit " YOU") = positive /\
  detectSentiment (lit "THAN YOU") = neutral.
Proof. split; vm_compute; reflexivity. Qed.

Example priority_lower_cases_the_kelvin_sign :
  determinePriority (lit "See you NEXT WEE" ++ [8490%N]) = medium /\
  determinePriority (lit "see you soon" ++ [8490%N]) = low.
Proof. split; vm_compute; reflexivity. Qed.

Example subject_lower_cases_the_kelvin_sign :
  craftSubjectFromObjective (lit "FEEDBAC" ++ [8490%N] ++ lit " round") (lit "Following up")
  = lit "Feedback and proposed improvements".
Proof. vm_compute. reflexivity. Qed.

Example priority_date_is_word_bounded :
  determinePriority (lit "Invoice a15/12b is attached") = low /\
  determinePriority (lit "See you on 5/12, ok?") = medium /\
  determinePriority (lit "Immediately, before 5/12") = high.
Proof. repeat split; vm_compute; reflexivity. Qed.

Example tasks_of_a_list :
  extractTasks
    (lit "Hi team," ++ [nl]
       ++ lit "- call Bob by next  week for Alice" ++ [ch "013"; nl]
       ++ lit "2. ship it by 5/12" ++ [nl]
       ++ lit "   * due march 3 report" ++ [nl]
       ++ lit "-" ++ [nl]
       ++ lit "could you review it by Friday 13")
  = [ mkTask (lit "Call Bob by next  week for Alice")
        (Some (lit "Next Week")) (Some (lit "Alice"));
      mkTask (lit "Ship it by 5/12") (Some (lit "5/12")) None;
      mkTask (lit "* due march 3 report") (Some (lit "March 3")) None;
      mkTask (lit "Could you review it by Friday 13")
        (Some (lit "Friday 13")) None ].
Proof. vm_compute. reflexivity. Qed.

Example summary_of_five_sentences :
  summarize
    (lit "Hello there.  How are you?" ++ [nl; nl] ++ lit "Fine! Yes. No.")
    (Some (lit "an earlier thread"))
  = lit "Hello there. How are you? Fine!".
Proof. vm_compute. reflexivity. Qed.

Example reply_with_persona :
  reply_body (generateReply professional [] (lit "Noted.") (Some (lit "Sam")))
  = lit "Hi Sam, thank you for reaching out. I wanted to follow up on your note."
      ++ [nl; nl] ++ lit "Noted." ++ [nl; nl]
      ++ lit "Let me know if you need anything else in the meantime and I'll happily assist."
      ++ [nl; nl] ++ lit "Best," ++ [nl] ++ lit "Your Email Agent".
Proof. vm_compute. reflexivity. Qed.

Example compose_example :
  let r := composeEmail [] (lit "Share a quick product update") concise
             [lit "Ship by Friday"; lit "Notify finance"] None None in
  subject r = lit "Quick project update" /\
  cadenceTip r = lit "Share a short recap if you do not hear back within 2 days." /\
  body r
  = lit "Appreciate the note. Here's what we'll do next:" ++ [nl; nl]
      ++ lit "Objective: Share a quick product update" ++ [nl; nl]
      ++ [bullet] ++ lit " Ship by Friday" ++ [nl]
      ++ [bullet] ++ lit " Notify finance" ++ [nl; nl]
      ++ lit "Ping me if priorities change." ++ [nl; nl]
      ++ lit "Best regards," ++ [nl] ++ lit "Your Email Agent".
Proof. repeat split; vm_compute; reflexivity. Qed.

(* ================================================================== *)
(** ** Tasks *)

Lemma filter_map_swap {A B : Type} (p : B -> bool) (f : A -> B) (l : list A) :
  filter p (map f l) = map f (filter (fun x => p (f x)) l).
Proof.
  induction l as [|x l IH]; simpl; [reflexivity |].
  destruct (p (f x)); simpl; now rewrite IH.
Qed.

Lemma filter_filter_and {A : Type} (p q : A -> bool) (l : list A) :
  filter q (filter p l) = filter (fun x => (p x && q x)%bool) l.
Proof.
  induction l as [|x l IH]; simpl; [reflexivity |].
  destruct (p x); simpl; [destruct (q x); now rewrite IH | exact IH].
Qed.

Lemma truthy_capitalize (s : str) : truthy (capitalize s) = truthy s.
Proof.
  destruct s as [|c rest]; [reflexivity |]. unfold capitalize.
  destruct (toUpperCase [c]) as [|x up] eqn:E; [| reflexivity].
  now destruct (toUpperCase_unit_shape c) as [N _].
Qed.

Lemma description_taskOfLine (line : str) :
  description (taskOfLine line)
  = capitalize (trim (replaceFirst reBulletStrip [] line)).
Proof. reflexivity. Qed.

(** C6: no task of an analysis has an empty description: a qualifying
    line whose text is empty once the bullet is stripped and the rest
    trimmed gives no task; and the tasks are the tasks of the remaining
    qualifying lines, in the order of the lines of the content. *)
Theorem extractTasks_order (content : str) :
  Forall (fun task => description task <> []) (extractTasks content) /\
  extractTasks content
  = map taskOfLine
      (filter (fun line =>
                 (isTaskLine line
                  && truthy (trim (replaceFirst reBulletStrip [] line)))%bool)
              (split reLineBreak content)) /\
  tasks (analyzeEmail content None None) = extractTasks content.
Proof.
  split; [| split; [| reflexivity]].
  - unfold extractTasks. apply Forall_forall. intros t Ht.
    apply filter_In in Ht. destruct Ht as [_ Ht]. now apply truthy_true.
  - unfold extractTasks.
    rewrite filter_map_swap, filter_filter_and.
    f_equal. apply filter_ext. intros line.
    now rewrite description_taskOfLine, truthy_capitalize.
Qed.

(* ================================================================== *)
(** ** The summary *)

Lemma splitGo_head (r : re) (rest : str) :
  forall prev skip cur,
    cur <> [] ->
    exists piece pieces,
      splitGo r prev rest skip cur = piece :: pieces /\ piece <> [].
Proof.
  assert (R : forall cur : str, cur <> [] -> rev cur <> []).
  { intros [|x cur] H; [congruence |].
    simpl. intros E. apply app_eq_nil in E. destruct E; discriminate. }
  induction rest as [|c t IH]; intros prev skip cur H.
  - simpl. eauto.
  - cbn [splitGo]. destruct skip as [|k]; [| now apply IH].
    destruct (matchAt r prev (c :: t)) as [[[|n] cap]|].
    + destruct cur as [|x cur]; [congruence |]. eauto.
    + eauto.
    + apply IH. discriminate.
Qed.

Lemma join_head_nonempty (sep piece : str) (pieces : list str) :
  piece <> [] -> join sep (piece :: pieces) <> [].
Proof.
  intros H. destruct piece as [|x piece]; [congruence |].
  destruct pieces; simpl; discriminate.
Qed.

Lemma replaceAll_newlines_nonempty (content : str) :
  content <> [] -> replaceAll reNewlines (lit " ") content <> [].
Proof.
  unfold reNewlines. rewrite replaceAll_plus.
  destruct content as [|c t]; [congruence | intros _].
  cbn [collapse]. destruct (one "010" c); discriminate.
Qed.

(** The computed summary is empty for the empty content only. *)
Lemma computedSummary_nonempty (content : str) :
  content <> [] -> computedSummary content <> [].
Proof.
  intros H. apply replaceAll_newlines_nonempty in H.
  unfold computedSummary, sentencesOf.
  destruct (replaceAll reNewlines (lit " ") content) as [|y u]; [congruence |].
  unfold split. cbn [splitGo].
  change (matchAt reSentenceGap None (y :: u)) with (@None found).
  destruct (splitGo_head reSentenceGap u (Some y) 0 [y]) as [piece [pieces [E P]]];
    [discriminate |].
  rewrite E. cbn [filter].
  apply truthy_true in P. rewrite P. cbn [firstn].
  apply join_head_nonempty. now apply truthy_true.
Qed.

Lemma summarize_nonempty (content : str) (threadHistory : option str) :
  content <> [] -> summarize content threadHistory = computedSummary content.
Proof.
  intros H. apply computedSummary_nonempty in H. apply truthy_true in H.
  unfold summarize. now rewrite H.
Qed.

(** C4: the summary is the first up to three sentences joined with a
    space whenever that text is not empty, with no thread-context note,
    whatever the thread history; a content that is not empty always has
    such a summary.  Only when the computed summary is empty is the result
    the fallback text, followed by the note when a thread history that is
    not empty is supplied; the count of the note is the number of
    whitespace-separated tokens of a thread history that neither begins
    nor ends with whitespace. *)
Theorem summarize_note_on_fallback_only (content : str) (threadHistory : option str) :
  computedSummary content = join (lit " ") (firstn 3 (sentencesOf content)) /\
  (computedSummary content <> [] ->
     summarize content threadHistory = computedSummary content) /\
  (content <> [] ->
     computedSummary content <> [] /\
     summarize content threadHistory = computedSummary content) /\
  (computedSummary content = [] ->
     match threadHistory with
     | None | Some [] =>
         summarize content threadHistory = lit "No summary available."
     | Some (_ :: _) =>
         exists n,
           summarize content threadHistory
           = lit "No summary available." ++ threadNote n
     end) /\
  (forall h,
     threadHistory = Some h -> h <> [] ->
     startsWithSpace h = false -> endsInSpace false h = false ->
     computedSummary content = [] ->
     summarize content threadHistory
     = lit "No summary available." ++ threadNote (wordCount h)).
Proof.
  assert (F : computedSummary content = [] ->
     summarize content threadHistory
     = lit "No summary available." ++ historyNoteOf threadHistory).
  { intros E. unfold summarize. rewrite E. reflexivity. }
  split; [reflexivity |].
  split; [| split; [| split]].
  - intros H. apply truthy_true in H. unfold summarize. now rewrite H.
  - intros H. split; [now apply computedSummary_nonempty |].
    now apply summarize_nonempty.
  - intros E. rewrite (F E). destruct threadHistory as [[|x h]|].
    + reflexivity.
    + now exists (List.length (split reSpaces (x :: h))).
    + reflexivity.
  - intros h -> H S E C. rewrite (F C). unfold historyNoteOf.
    apply truthy_true in H. rewrite H.
    rewrite split_spaces_length by now apply truthy_true.
    rewrite S, E. now rewrite !Nat.add_0_r.
Qed.

Lemma summarize_note_on_fallback_only_witness :
  summarize [] (Some (lit "see the earlier thread"))
  = lit "No summary available. Thread context considered (4 words).".
Proof.
  exact (proj2 (proj2 (proj2 (proj2
           (summarize_note_on_fallback_only [] (Some (lit "see the earlier thread"))))))
           (lit "see the earlier thread") eq_refl
           (proj1 (truthy_true (lit "see the earlier thread")) eq_refl)
           eq_refl eq_refl eq_refl).
Defined.

(* ================================================================== *)
(** ** The thread history *)

Lemma analyzeEmail_threadHistory (content : str) (h1 h2 persona : option str) :
  content <> [] ->
  analyzeEmail content h1 persona = analyzeEmail content h2 persona.
Proof.
  intros H. unfold analyzeEmail.
  now rewrite (summarize_nonempty content h1 H), (summarize_nonempty content h2 H).
Qed.

(** C5: an analyze request whose content is not empty after trimming gets
    the same answer whatever its thread history, given or absent: the
    summary of such a content is never empty, so the fallback text and its
    thread-context note are not reached, and nothing else reads the thread
    history. *)
Theorem POST_threadHistory_irrelevant (payload : Payload) (c : str)
    (h1 h2 : option str) :
  mode payload = lit "analyze" ->
  content payload = Some c ->
  trim c <> [] ->
  POST (withThreadHistory payload h1) = POST (withThreadHistory payload h2) /\
  POST (withThreadHistory payload h1)
  = mkResponse 200 (AnalyzeBody (analyzeEmail (trim c) h1 (persona payload))) /\
  analyzeEmail (trim c) h1 (persona payload)
  = analyzeEmail (trim c) None (persona payload) /\
  summary (analyzeEmail (trim c) h1 (persona payload)) = computedSummary (trim c) /\
  computedSummary (trim c) <> [].
Proof.
  intros M C T.
  assert (R : forall h,
             POST (withThreadHistory payload h)
             = mkResponse 200
                 (AnalyzeBody (analyzeEmail (trim c) h (persona payload)))).
  { intros h. unfold POST, handle, withThreadHistory.
    cbn [mode content threadHistory persona].
    rewrite M, C. cbn [option_map truthyOpt str_eqb].
    apply truthy_true in T. rewrite T. reflexivity. }
  split; [| split; [apply R | split; [| split]]].
  - rewrite !R. now rewrite (analyzeEmail_threadHistory (trim c) h1 h2).
  - now apply analyzeEmail_threadHistory.
  - unfold analyzeEmail. cbn [summary]. now apply summarize_nonempty.
  - now apply computedSummary_nonempty.
Qed.

Lemma POST_threadHistory_irrelevant_witness :
  POST (withThreadHistory
          (mkPayload (lit "analyze") (Some (lit " Can you send the report? "))
             None None [] [] professional [] None None)
          None)
  = POST (withThreadHistory
            (mkPayload (lit "analyze") (Some (lit " Can you send the report? "))
               None None [] [] professional [] None None)
            (Some (lit "an earlier message"))).
Proof.
  exact (proj1
           (POST_threadHistory_irrelevant
              (mkPayload (lit "analyze") (Some (lit " Can you send the report? "))
                 None None [] [] professional [] None None)
              (lit " Can you send the report? ")
              None (Some (lit "an earlier message"))
              eq_refl eq_refl
              (proj1 (truthy_true (trim (lit " Can you send the report? "))) eq_refl))).
Defined.

(* ================================================================== *)
(** ** Tags *)

Lemma buildTags_shape (p : Priority) (s : Sentiment) (ts : list Task) :
  buildTags p s ts
  = [priorityTag p; sentimentTag s]
      ++ (if Nat.ltb 0 (List.length ts) then [lit "Action items"] else [])
      ++ (if existsb (fun task => truthyOpt (owner task)) ts
          then [lit "Delegation"] else []).
Proof.
  unfold buildTags.
  destruct (Nat.ltb 0 (List.length ts)),
           (existsb (fun task => truthyOpt (owner task)) ts);
    destruct p, s; vm_compute; reflexivity.
Qed.

Lemma buildTags_NoDup (p : Priority) (s : Sentiment) (ts : list Task) :
  NoDup (buildTags p s ts).
Proof.
  rewrite buildTags_shape.
  destruct (Nat.ltb 0 (List.length ts)),
           (existsb (fun task => truthyOpt (owner task)) ts);
    destruct p, s; vm_compute;
    repeat (constructor; [simpl; intuition discriminate |]); constructor.
Qed.

Lemma buildTags_action_items (p : Priority) (s : Sentiment) (ts : list Task) :
  In (lit "Action items") (buildTags p s ts) <-> ts <> [].
Proof.
  rewrite buildTags_shape.
  destruct ts as [|t ts]; simpl List.length; cbn [Nat.ltb Nat.leb].
  - split; [|congruence].
    destruct (existsb _ []); destruct p, s; vm_compute; intuition discriminate.
  - split; [congruence | intros _].
    simpl. right. right. left. reflexivity.
Qed.

(** C7: the tags of an analysis have no duplicates and stand in insertion
    order: the priority tag, the sentiment tag, then Action items when
    there are tasks, then Delegation when a task has an owner; Action
    items is among the tags iff the task list is not empty. *)
Theorem analyzeEmail_tags (content : str) (threadHistory persona : option str) :
  let r := analyzeEmail content threadHistory persona in
  NoDup (tags r) /\
  tags r
  = [priorityTag (priority r); sentimentTag (sentiment r)]
      ++ (if Nat.ltb 0 (List.length (tasks r)) then [lit "Action items"] else [])
      ++ (if existsb (fun task => truthyOpt (owner task)) (tasks r)
          then [lit "Delegation"] else []) /\
  (In (lit "Action items") (tags r) <-> tasks r <> []).
Proof.
  intros r. unfold r, analyzeEmail. cbn [tags tasks priority sentiment].
  split; [apply buildTags_NoDup |].
  split; [apply buildTags_shape | apply buildTags_action_items].
Qed.

(* ================================================================== *)
(** ** The recommended reply *)

(** C10: the recommended reply of an analysis is written in the assertive
    tone when the priority is high and in the professional tone otherwise,
    and its subject is the fixed subject of that tone's template. *)
Theorem analyzeEmail_reply_tone (content : str) (threadHistory persona : option str) :
  let r := analyzeEmail content threadHistory persona in
  recommendedReply r
  = generateReply (replyTone (priority r)) (tasks r) (summary r) persona /\
  replyTone (priority r) = (if match priority r with high => true | _ => false end
                            then assertive else professional) /\
  reply_subject (recommendedReply r)
  = tpl_subject (FOLLOW_UP_TEMPLATES (replyTone (priority r))) /\
  reply_subject (recommendedReply r)
  = match priority r with
    | high => lit "Action needed"
    | _ => lit "Quick follow-up on your message"
    end.
Proof.
  intros r. unfold r, analyzeEmail.
  cbn [recommendedReply priority tasks summary].
  destruct (determinePriority content); cbn [replyTone];
    repeat split; reflexivity.
Qed.

(* ================================================================== *)
(** ** The preview *)

Lemma buildPreview_length (body : str) : List.length (buildPreview body) <= 143.
Proof.
  unfold buildPreview. rewrite length_app, length_firstn.
  destruct (Nat.ltb 140 _);
    [change (List.length (lit "...")) with 3 | change (@List.length char []) with 0];
    lia.
Qed.

Lemma buildPreview_cases (body : str) :
  let condensed := trim (replaceAll reSpaces (lit " ") body) in
  (140 < List.length condensed ->
     buildPreview body = firstn 140 condensed ++ lit "...") /\
  (List.length condensed <= 140 -> buildPreview body = condensed).
Proof.
  intros condensed. unfold buildPreview. fold condensed. split; intros H.
  - apply Nat.ltb_lt in H. now rewrite H.
  - rewrite firstn_all2 by exact H.
    apply Nat.ltb_ge in H. rewrite H. apply app_nil_r.
Qed.

(** C8 (as the code has it): the preview of a draft is its body with the
    whitespace runs replaced by single spaces and trimmed, cut to 140 code
    units, with an ellipsis appended iff the collapsed body is longer than
    140.  It is at most 143 long; when the collapsed body exceeds 140 it
    ends with the ellipsis and is 143 long; otherwise it is the collapsed
    body itself, so it ends with three dots exactly when that body does. *)
Theorem composeEmail_preview (audience objective : str) (tone : Tone)
    (keyPoints : list str) (callToAction signature : option str) :
  let r := composeEmail audience objective tone keyPoints callToAction signature in
  let condensed := trim (replaceAll reSpaces (lit " ") (body r)) in
  condensed = trim (collapse isSpace (lit " ") false (body r)) /\
  preview r
  = firstn 140 condensed
      ++ (if Nat.ltb 140 (List.length condensed) then lit "..." else []) /\
  List.length (preview r) <= 143 /\
  (140 < List.length condensed ->
     EndsWith (preview r) (lit "...") /\ List.length (preview r) = 143) /\
  (List.length condensed <= 140 -> preview r = condensed) /\
  (EndsWith (preview r) (lit "...") <->
     140 < List.length condensed \/ EndsWith condensed (lit "...")).
Proof.
  intros r condensed.
  assert (P : preview r = buildPreview (body r)) by reflexivity.
  destruct (buildPreview_cases (body r)) as [Hlong Hshort].
  fold condensed in Hlong, Hshort.
  split; [unfold condensed, reSpaces; now rewrite replaceAll_plus |].
  split; [exact P |].
  split; [rewrite P; apply buildPreview_length |].
  split; [| split].
  - intros H. rewrite P, (Hlong H). split.
    + exists (firstn 140 condensed). reflexivity.
    + rewrite length_app, length_firstn.
      change (List.length (lit "...")) with 3. lia.
  - intros H. rewrite P. exact (Hshort H).
  - destruct (Nat.le_gt_cases (List.length condensed) 140) as [H | H].
    + rewrite P, (Hshort H). split; [auto | intros [L | E]; [lia | exact E]].
    + rewrite P, (Hlong H). split; [auto | intros _].
      exists (firstn 140 condensed). reflexivity.
Qed.

Lemma composeEmail_preview_witness :
  EndsWith
    (preview (composeEmail (lit "Bob") (lit "share a quick product update")
                friendly [lit "- ship by friday"; lit "Notify finance"]
                None None))
    (lit "...") /\
  List.length
    (preview (composeEmail (lit "Bob") (lit "share a quick product update")
                friendly [lit "- ship by friday"; lit "Notify finance"]
                None None))
  = 143.
Proof.
  apply (proj1 (proj2 (proj2 (proj2
           (composeEmail_preview (lit "Bob") (lit "share a quick product update")
              friendly [lit "- ship by friday"; lit "Notify finance"]
              None None))))).
  vm_compute. lia.
Defined.

(** C8 as the specification words it fails: the preview of this draft ends
    with three dots although its collapsed body is 87 code units long. *)
Lemma preview_ellipsis_without_truncation :
  ~ (EndsWith (preview ellipsisDraft) (lit "...") <->
     140 < List.length
             (trim (replaceAll reSpaces (lit " ") (body ellipsisDraft)))).
Proof.
  intros [H _].
  assert (E : EndsWith (preview ellipsisDraft) (lit "...")).
  { exists (firstn 84 (preview ellipsisDraft)). vm_compute. reflexivity. }
  apply H in E. vm_compute in E. lia.
Qed.

(* ================================================================== *)
(** ** The handler *)

(** C9: the handler answers with an error exactly in two cases: the mode
    is analyze and the content is missing, empty or only whitespace (the
    answer is then the validation error whatever the analysis pipeline
    is, so the pipeline is not consulted), or the mode is neither analyze
    nor compose (the unsupported-mode error).  A compose request always
    gets the result of the compose pipeline, and with an empty objective
    its subject is the subject of the tone's template. *)
Theorem POST_errors (payload : Payload) :
  (isErrorBody (responseBody (POST payload)) <->
     (mode payload = lit "analyze" /\ Blank (content payload)) \/
     (mode payload <> lit "analyze" /\ mode payload <> lit "compose")) /\
  (mode payload = lit "analyze" -> Blank (content payload) ->
     forall analyze compose,
       handle analyze compose payload
       = mkResponse 400 (ErrorBody (lit "Email content is required."))) /\
  (mode payload <> lit "analyze" -> mode payload <> lit "compose" ->
     forall analyze compose,
       handle analyze compose payload
       = mkResponse 400 (ErrorBody (lit "Unsupported mode."))) /\
  (mode payload = lit "analyze" -> ~ Blank (content payload) ->
     exists c,
       content payload = Some c /\
       POST payload
       = mkResponse 200
           (AnalyzeBody
              (analyzeEmail (trim c) (threadHistory payload) (persona payload)))) /\
  (mode payload = lit "compose" ->
     exists r,
       POST payload = mkResponse 200 (ComposeBody r) /\
       r = composeEmail (trim (audience payload)) (trim (objective payload))
             (tone payload) (keyPoints payload)
             (option_map trim (callToAction payload))
             (option_map trim (signature payload)) /\
       (Forall (fun x => isSpace x = true) (objective payload) ->
          subject r = tpl_subject (FOLLOW_UP_TEMPLATES (tone payload)))).
Proof.
  assert (Herr : mode payload = lit "analyze" -> Blank (content payload) ->
     forall analyze compose,
       handle analyze compose payload
       = mkResponse 400 (ErrorBody (lit "Email content is required."))).
  { intros M B an co. unfold handle.
    apply str_eqb_eq in M. rewrite M.
    apply truthyOpt_trim_false in B. rewrite B. reflexivity. }
  assert (Hmode : mode payload <> lit "analyze" -> mode payload <> lit "compose" ->
     forall analyze compose,
       handle analyze compose payload
       = mkResponse 400 (ErrorBody (lit "Unsupported mode."))).
  { intros M1 M2 an co. unfold handle.
    apply str_eqb_neq in M1, M2. rewrite M1, M2. reflexivity. }
  assert (Hrun : mode payload = lit "analyze" -> ~ Blank (content payload) ->
     exists c,
       content payload = Some c /\
       POST payload
       = mkResponse 200
           (AnalyzeBody
              (analyzeEmail (trim c) (threadHistory payload) (persona payload)))).
  { intros M B. unfold POST, handle.
    apply str_eqb_eq in M. rewrite M.
    destruct (truthyOpt (option_map trim (content payload))) eqn:E.
    - destruct (content payload) as [c|]; [|discriminate].
      exists c. split; reflexivity.
    - apply truthyOpt_trim_false in E. contradiction. }
  assert (Hcompose : mode payload = lit "compose" ->
     POST payload
     = mkResponse 200
         (ComposeBody
            (composeEmail (trim (audience payload)) (trim (objective payload))
               (tone payload) (keyPoints payload)
               (option_map trim (callToAction payload))
               (option_map trim (signature payload))))).
  { intros M. unfold POST, handle. rewrite M. reflexivity. }
  split; [| split; [exact Herr | split; [exact Hmode | split; [exact Hrun |]]]].
  - split.
    + intros E.
      destruct (str_eqb (mode payload) (lit "analyze")) eqn:M1.
      * apply str_eqb_eq in M1. left. split; [exact M1 |].
        apply truthyOpt_trim_false.
        destruct (truthyOpt (option_map trim (content payload))) eqn:B;
          [|reflexivity].
        assert (NB : ~ Blank (content payload)).
        { intros NB. apply truthyOpt_trim_false in NB. congruence. }
        destruct (Hrun M1 NB) as [c [_ R]]. rewrite R in E. destruct E.
      * apply str_eqb_neq in M1.
        destruct (str_eqb (mode payload) (lit "compose")) eqn:M2.
        -- apply str_eqb_eq in M2. rewrite (Hcompose M2) in E. destruct E.
        -- apply str_eqb_neq in M2. right. split; assumption.
    + intros [[M B] | [M1 M2]]; unfold POST.
      * rewrite (Herr M B). exact I.
      * rewrite (Hmode M1 M2). exact I.
  - intros M. eexists. split; [exact (Hcompose M) | split; [reflexivity |]].
    intros B. apply trim_nil in B.
    unfold composeEmail. cbn [subject]. rewrite B. reflexivity.
Qed.

Lemma POST_errors_witness :
  exists r,
    POST (mkPayload (lit "compose") None None None (lit "Dana") (lit "  ")
            warm [lit "- send the deck"] None None)
    = mkResponse 200 (ComposeBody r) /\
    subject r = lit "Appreciate the note".
Proof.
  destruct (proj2 (proj2 (proj2 (proj2
              (POST_errors
                 (mkPayload (lit "compose") None None None (lit "Dana") (lit "  ")
                    warm [lit "- send the deck"] None None)))))
              eq_refl) as [r [H1 [_ H3]]].
  exists r. split; [exact H1 |].
  apply H3. repeat constructor.
Defined.

(* ================================================================== *)
(** ** More about trimming *)

Lemma trimStart_split (s : str) :
  exists a, s = a ++ trimStart s /\ AllSpace a.
Proof.
  induction s as [|c s [a [E A]]]; simpl.
  - exists []. split; [reflexivity | constructor].
  - destruct (isSpace c) eqn:C.
    + exists (c :: a). split; [simpl; now rewrite <- E | now constructor].
    + exists []. split; [reflexivity | constructor].
Qed.

Lemma trimStart_keeps_end (a : str) (c : char) :
  isSpace c = false -> forall s, trimStart (s ++ [c]) = trimStart s ++ [c].
Proof.
  intros C. induction s as [|x s IH]; simpl.
  - now rewrite C.
  - destruct (isSpace x); [exact IH | reflexivity].
Qed.

Lemma AllSpace_rev (s : str) : AllSpace s -> AllSpace (rev s).
Proof.
  unfold AllSpace. rewrite !Forall_forall. intros H x I.
  apply H. now apply in_rev.
Qed.

Lemma trimEnd_split (s : str) :
  exists b, s = trimEnd s ++ b /\ AllSpace b.
Proof.
  unfold trimEnd. destruct (trimStart_split (rev s)) as [a [E A]].
  exists (rev a). split; [| now apply AllSpace_rev].
  rewrite <- rev_app_distr, <- E. now rewrite rev_involutive.
Qed.

Lemma trimEnd_last (s t : str) (c : char) :
  trimEnd s = t ++ [c] -> isSpace c = false.
Proof.
  unfold trimEnd. intros H.
  assert (E : trimStart (rev s) = c :: rev t).
  { rewrite <- (rev_involutive (trimStart (rev s))), H.
    now rewrite rev_app_distr. }
  now apply trimStart_head in E.
Qed.

Lemma trimEnd_head (s : str) (c : char) (t : str) :
  isSpace c = false -> exists t', trimEnd (c :: s) = c :: t'.
Proof.
  intros C. unfold trimEnd. simpl.
  rewrite (trimStart_keeps_end [] c C). rewrite rev_app_distr. simpl. eauto.
Qed.

(** [trim] removes whitespace at both ends and nothing else. *)
Lemma trim_split (s : str) :
  exists a b, s = a ++ trim s ++ b /\ AllSpace a /\ AllSpace b.
Proof.
  unfold trim. destruct (trimStart_split s) as [a [E A]].
  destruct (trimEnd_split (trimStart s)) as [b [E' B]].
  exists a, b. split; [| split; assumption].
  now rewrite <- E', <- E.
Qed.

Lemma trim_Trimmed (s : str) : Trimmed (trim s).
Proof.
  split.
  - intros c t E. unfold trim in E.
    destruct (trimStart s) as [|x u] eqn:S; [discriminate E |].
    pose proof (trimStart_head _ _ _ S) as X.
    destruct (trimEnd_head u x u X) as [t' E'].
    rewrite E' in E. inversion E; subst. exact X.
  - intros t c E. unfold trim in E. now apply trimEnd_last in E.
Qed.

Lemma trimStart_fixed (s : str) :
  (forall c t, s = c :: t -> isSpace c = false) -> trimStart s = s.
Proof.
  destruct s as [|c t]; [reflexivity | intros H].
  simpl. now rewrite (H c t eq_refl).
Qed.

Lemma Trimmed_rev_head (s : str) :
  (forall t c, s = t ++ [c] -> isSpace c = false) ->
  forall c t, rev s = c :: t -> isSpace c = false.
Proof.
  intros H c t E. apply (H (rev t) c).
  rewrite <- (rev_involutive s), E. reflexivity.
Qed.

Lemma trim_fixed (s : str) : Trimmed s -> trim s = s.
Proof.
  intros [H1 H2]. unfold trim, trimEnd.
  rewrite (trimStart_fixed s H1).
  rewrite (trimStart_fixed (rev s) (Trimmed_rev_head s H2)).
  apply rev_involutive.
Qed.

Lemma trim_idempotent (s : str) : trim (trim s) = trim s.
Proof. apply trim_fixed, trim_Trimmed. Qed.

Lemma trimStart_pad (a s : str) : AllSpace a -> trimStart (a ++ s) = trimStart s.
Proof.
  induction 1 as [|x a X _ IH]; simpl; [reflexivity | now rewrite X].
Qed.

Lemma trimEnd_pad (s b : str) : AllSpace b -> trimEnd (s ++ b) = trimEnd s.
Proof.
  intros B. unfold trimEnd. rewrite rev_app_distr.
  now rewrite trimStart_pad by now apply AllSpace_rev.
Qed.

Lemma trimStart_app (s b : str) :
  trimStart s <> [] -> trimStart (s ++ b) = trimStart s ++ b.
Proof.
  induction s as [|c s IH]; simpl; [congruence |].
  destruct (isSpace c); [exact IH | reflexivity].
Qed.

Lemma trimEnd_AllSpace (b : str) : AllSpace b -> trimEnd b = [].
Proof.
  intros B. unfold trimEnd. apply AllSpace_rev in B.
  apply trimStart_nil in B. now rewrite B.
Qed.

(** Whitespace put around a text does not change what [trim] gives. *)
Lemma trim_pad (a s b : str) :
  AllSpace a -> AllSpace b -> trim (a ++ s ++ b) = trim s.
Proof.
  intros A B. unfold trim. rewrite trimStart_pad by exact A.
  destruct (trimStart s) as [|c t] eqn:E.
  - assert (S : AllSpace s) by now apply trimStart_nil.
    assert (SB : AllSpace (s ++ b)) by (apply Forall_app; split; assumption).
    apply trimStart_nil in SB. rewrite SB. reflexivity.
  - rewrite trimStart_app by (rewrite E; discriminate).
    rewrite E. now apply trimEnd_pad.
Qed.

(** *** Tasks are trimmed *)

Lemma capitalize_Trimmed (d : str) : Trimmed d -> Trimmed (capitalize d).
Proof.
  intros [H1 H2]. destruct d as [|c rest].
  - split; [intros c t E; discriminate E | intros [|z t] c E; discriminate E].
  - pose proof (H1 c rest eq_refl) as Hc.
    destruct (toUpperCase_unit_shape c) as [N S]. specialize (S Hc).
    unfold capitalize.
    destruct (toUpperCase [c]) as [|u up] eqn:E; [congruence |]. split.
    + intros x t Ex. simpl in Ex. injection Ex as <- _. apply S. now left.
    + intros t x Ex. destruct rest as [|r0 rest0].
      * rewrite app_nil_r in Ex.
        apply S. rewrite Ex. apply in_or_app. right. now left.
      * destruct (@exists_last _ (r0 :: rest0)) as [r' [y R]]; [discriminate |].
        rewrite R, app_assoc in Ex. apply app_inj_tail in Ex.
        destruct Ex as [_ ->]. apply (H2 (c :: r') x). now rewrite R.
Qed.

(** X13: every task description is non-empty and has no whitespace at
    either end, and there are at most as many tasks as lines. *)
Theorem extractTasks_trimmed (content : str) :
  Forall (fun task => Trimmed (description task) /\ description task <> [])
         (extractTasks content) /\
  List.length (extractTasks content) <= List.length (split reLineBreak content).
Proof.
  unfold extractTasks. split.
  - apply Forall_forall. intros t I. apply filter_In in I. destruct I as [I T].
    apply in_map_iff in I. destruct I as [line [<- _]]. split.
    + rewrite description_taskOfLine. apply capitalize_Trimmed, trim_Trimmed.
    + now apply truthy_true.
  - etransitivity; [apply filter_length_le |].
    rewrite length_map. apply filter_length_le.
Qed.

(** *** Single spacing *)

Lemma spacedOnce_weaken (s : str) :
  spacedOnce true s = true -> spacedOnce false s = true.
Proof.
  destruct s as [|c t]; simpl; [auto |].
  destruct (isSpace c); [| auto].
  rewrite andb_false_r. discriminate.
Qed.

Lemma spacedOnce_any (b : bool) (s : str) :
  spacedOnce b s = true -> spacedOnce false s = true.
Proof. destruct b; [apply spacedOnce_weaken | auto]. Qed.

Lemma spacedOnce_app (a m : str) :
  forall b, spacedOnce b (a ++ m) = true ->
            spacedOnce b a = true /\ spacedOnce false m = true.
Proof.
  induction a as [|c a IH]; intros b H; simpl in *.
  - split; [reflexivity | now apply spacedOnce_any in H].
  - destruct (isSpace c).
    + apply andb_true_iff in H. destruct H as [H1 H2].
      destruct (IH true H2) as [Ha Hm]. now rewrite H1, Ha.
    + now apply IH.
Qed.

Lemma spacedOnce_app_nospace (a m : str) :
  forallb (fun c => negb (isSpace c)) m = true ->
  forall b, spacedOnce b a = true -> spacedOnce b (a ++ m) = true.
Proof.
  intros M. induction a as [|c a IH]; intros b H; simpl in *.
  - clear H. revert b. induction m as [|x m IHm]; intros b; simpl in *; [reflexivity |].
    apply andb_true_iff in M. destruct M as [X M].
    apply negb_true_iff in X. rewrite X. now apply IHm.
  - destruct (isSpace c).
    + apply andb_true_iff in H. destruct H as [H1 H2].
      rewrite H1. simpl. now apply IH.
    + now apply IH.
Qed.

Lemma collapse_spacedOnce (s : str) :
  spacedOnce true (collapse isSpace (lit " ") true s) = true /\
  spacedOnce false (collapse isSpace (lit " ") false s) = true.
Proof.
  induction s as [|c t [IH1 IH0]]; [split; reflexivity |].
  cbn [collapse]. destruct (isSpace c) eqn:C.
  - split; [exact IH1 |]. simpl. exact IH1.
  - simpl. rewrite C. split; exact IH0.
Qed.

(** The preview is one line of text: its only whitespace is single spaces
    between other text, and it does not begin with whitespace. *)
Lemma buildPreview_single_spaced (body : str) :
  spacedOnce true (buildPreview body) = true.
Proof.
  unfold buildPreview.
  set (condensed := trim (replaceAll reSpaces (lit " ") body)).
  assert (C : spacedOnce true condensed = true).
  { unfold condensed, reSpaces. rewrite replaceAll_plus.
    destruct (trim_split (collapse isSpace (lit " ") false body)) as [a [b [E _]]].
    pose proof (proj2 (collapse_spacedOnce body)) as S. rewrite E in S.
    apply spacedOnce_app in S. destruct S as [_ S].
    apply spacedOnce_app in S. destruct S as [S _].
    destruct (trim (collapse isSpace (lit " ") false body)) as [|x t] eqn:T;
      [reflexivity |].
    pose proof (proj1 (trim_Trimmed (collapse isSpace (lit " ") false body)) x t T) as X.
    simpl in *. now rewrite X in *. }
  assert (F : spacedOnce true (firstn 140 condensed) = true).
  { rewrite <- (firstn_skipn 140 condensed) in C.
    now apply spacedOnce_app in C. }
  destruct (Nat.ltb 140 (List.length condensed)).
  - now apply spacedOnce_app_nospace.
  - now rewrite app_nil_r.
Qed.

Lemma spacedOnce_In (s : str) :
  forall b c, spacedOnce b s = true -> In c s -> isSpace c = true -> c = 32%N.
Proof.
  induction s as [|x s IH]; intros b c H I C; [destruct I |].
  simpl in H. destruct I as [-> | I].
  - rewrite C in H. apply andb_true_iff in H. destruct H as [H _].
    apply andb_true_iff in H. destruct H as [H _]. now apply N.eqb_eq.
  - destruct (isSpace x).
    + apply andb_true_iff in H. destruct H as [_ H]. eapply IH; eauto.
    + eapply IH; eauto.
Qed.

(** X5: the preview of a draft is one line of text: its only whitespace is
    the space, never two in a row, there is no line feed, and it does not
    begin with whitespace. *)
Theorem composeEmail_preview_one_line (audience objective : str) (tone : Tone)
    (keyPoints : list str) (callToAction signature : option str) :
  let p := preview (composeEmail audience objective tone keyPoints
                      callToAction signature) in
  spacedOnce true p = true /\
  (forall c, In c p -> isSpace c = true -> c = ch " ") /\
  ~ In nl p /\
  (forall c t, p = c :: t -> isSpace c = false).
Proof.
  intros p.
  assert (S : spacedOnce true p = true) by apply buildPreview_single_spaced.
  split; [exact S |]. split; [| split].
  - intros c I C. exact (spacedOnce_In p true c S I C).
  - intros I. pose proof (spacedOnce_In p true nl S I eq_refl) as E. discriminate E.
  - intros c t E. rewrite E in S. simpl in S.
    destruct (isSpace c); [| reflexivity].
    rewrite andb_false_r in S. discriminate S.
Qed.

(** *** The summary has no line feed *)

Lemma collapse_no_class (p : char -> bool) (repl : str) (s : str) :
  forallb (fun c => negb (p c)) repl = true ->
  forall b c, In c (collapse p repl b s) -> p c = false.
Proof.
  intros R. rewrite forallb_forall in R.
  induction s as [|x s IH]; intros b c I; [destruct I |].
  cbn [collapse] in I. destruct (p x) eqn:X.
  - apply in_app_or in I. destruct I as [I | I]; [| eapply IH; eauto].
    destruct b; [destruct I |]. apply negb_true_iff. now apply R.
  - destruct I as [<- | I]; [exact X | eapply IH; eauto].
Qed.

Lemma splitGo_In (r : re) (rest : str) :
  forall prev skip cur piece c,
    In piece (splitGo r prev rest skip cur) -> In c piece ->
    In c rest \/ In c cur.
Proof.
  induction rest as [|x t IH]; intros prev skip cur piece c P C.
  - simpl in P. destruct P as [<- | []]. right. now apply in_rev.
  - cbn [splitGo] in P. destruct skip as [|k].
    + destruct (matchAt r prev (x :: t)) as [[[|n] cap]|].
      * destruct cur as [|y cur].
        -- destruct (IH _ _ _ _ _ P C) as [H | H]; [left; now right |].
           destruct H as [<- | []]. left. now left.
        -- destruct P as [<- | P]; [right; now apply in_rev |].
           destruct (IH _ _ _ _ _ P C) as [H | H]; [left; now right |].
           destruct H as [<- | []]. left. now left.
      * destruct P as [<- | P]; [right; now apply in_rev |].
        destruct (IH _ _ _ _ _ P C) as [H | []]. left. now right.
      * destruct (IH _ _ _ _ _ P C) as [H | H]; [left; now right |].
        destruct H as [<- | H]; [left; now left | now right].
    + destruct (IH _ _ _ _ _ P C) as [H | H]; [left; now right | now right].
Qed.

Lemma split_In (r : re) (s piece : str) (c : char) :
  In piece (split r s) -> In c piece -> In c s.
Proof.
  destruct s as [|x t]; unfold split.
  - destruct (matchAt r None []); [intros [] | intros [<- | []] []].
  - intros P C. destruct (splitGo_In r (x :: t) None 0 [] piece c P C) as [H | []].
    exact H.
Qed.

Lemma join_In (sep : str) (parts : list str) (c : char) :
  In c (join sep parts) -> In c sep \/ exists piece, In piece parts /\ In c piece.
Proof.
  induction parts as [|p parts IH]; [intros [] |].
  destruct parts as [|q parts].
  - simpl. intros I. right. exists p. auto.
  - change (join sep (p :: q :: parts)) with (p ++ sep ++ join sep (q :: parts)).
    intros I. apply in_app_or in I. destruct I as [I | I].
    + right. exists p. split; [now left | exact I].
    + apply in_app_or in I. destruct I as [I | I]; [now left |].
      destruct (IH I) as [H | [piece [H1 H2]]]; [now left |].
      right. exists piece. split; [now right | exact H2].
Qed.

Lemma In_firstn {A : Type} (n : nat) (l : list A) (x : A) :
  In x (firstn n l) -> In x l.
Proof.
  intros I. rewrite <- (firstn_skipn n l). apply in_or_app. now left.
Qed.

Lemma computedSummary_no_line_feed (content : str) :
  ~ In nl (computedSummary content).
Proof.
  unfold computedSummary, sentencesOf. intros I.
  apply join_In in I. destruct I as [I | [piece [P C]]].
  - destruct I as [E | []]. discriminate E.
  - apply In_firstn in P. apply filter_In in P. destruct P as [P _].
    pose proof (split_In _ _ _ _ P C) as H.
    unfold reNewlines in H. rewrite replaceAll_plus in H.
    apply (collapse_no_class (one "010") (lit " ")) in H; [| reflexivity].
    discriminate H.
Qed.

(* ================================================================== *)
(** ** What a match captures *)

Lemma orElse_eq (a b : option found) (res : found) :
  orElse a b = Some res -> a = Some res \/ b = Some res.
Proof. destruct a; simpl; auto. Qed.

Lemma rep_some (p : char -> bool) (k : cont) (cap : option str) (res : found)
    (rest : str) :
  forall lo hi prev n,
    rep p lo hi k prev rest n cap = Some res ->
    exists x post,
      rest = x ++ post /\ forallb p x = true /\ lo <= List.length x /\
      within hi (List.length x) /\
      k (lastOr prev x) post (n + List.length x) cap = Some res.
Proof.
  assert (Stop : forall lo hi prev n rest',
            match lo with O => k prev rest' n cap | S _ => None end = Some res ->
            exists x post,
              rest' = x ++ post /\ forallb p x = true /\ lo <= List.length x /\
              within hi (List.length x) /\
              k (lastOr prev x) post (n + List.length x) cap = Some res).
  { intros lo hi prev n rest' H. destruct lo; [| discriminate H].
    exists [], rest'. simpl. rewrite Nat.add_0_r.
    repeat split; auto. apply within_0. }
  induction rest as [|c t IH]; intros lo hi prev n H.
  - rewrite rep_nil in H. now apply Stop.
  - assert (D : hi = Some 0 \/ hi <> Some 0)
      by (destruct hi as [[|h]|];
          [left; reflexivity | right; discriminate | right; discriminate]).
    destruct D as [-> | Hhi]; [cbn [rep] in H; now apply Stop |].
    rewrite rep_cons in H by exact Hhi. cbv zeta in H.
    destruct (p c) eqn:Pc; [| now apply Stop].
    apply orElse_eq in H. destruct H as [H | H]; [| now apply Stop].
    apply IH in H. destruct H as [x [post [E [F [L [W K]]]]]].
    exists (c :: x), post. subst t. simpl. rewrite Pc, F.
    rewrite Nat.add_succ_r. simpl in K.
    apply (within_S hi (List.length x) Hhi) in W.
    repeat split; auto; lia.
Qed.

Lemma firstn_app_exact (x post : str) (n : nat) :
  firstn (n + List.length x - n) (x ++ post) = x.
Proof.
  replace (n + List.length x - n) with (List.length x + 0) by lia.
  rewrite firstn_app_2. simpl. apply app_nil_r.
Qed.

Lemma langc_lang (r : re) :
  forall prev x post c1 c2, langc r prev x post c1 c2 -> lang r prev x post.
Proof.
  induction r; intros prev x post c1 c2 L; cbn [langc lang] in *; try tauto.
  - destruct L as [x1 [x2 [cm [E [L1 L2]]]]]. exists x1, x2. eauto.
  - destruct L as [L | L]; eauto.
Qed.

(** A successful run matched and captured as the pattern says. *)
Lemma run_some (r : re) :
  forall k prev rest n cap res,
    run r k prev rest n cap = Some res ->
    exists x post cout,
      rest = x ++ post /\ langc r prev x post cap cout /\
      k (lastOr prev x) post (n + List.length x) cout = Some res.
Proof.
  induction r as [| p | a IHa b IHb | a IHa b IHb | p lo hi | a IHa | | | p];
    intros k prev rest n cap res H; cbn [run] in H; cbn [langc lang].
  - exists [], rest, cap. simpl. now rewrite Nat.add_0_r.
  - destruct rest as [|c t]; [discriminate H |].
    destruct (p c) eqn:Pc; [| discriminate H].
    exists [c], t, cap. simpl. rewrite Nat.add_1_r. eauto 7.
  - apply IHa in H. destruct H as [x1 [post1 [cmid [E1 [L1 K1]]]]].
    apply IHb in K1. destruct K1 as [x2 [post [cout [E2 [L2 K]]]]].
    exists (x1 ++ x2), post, cout. subst post1 rest.
    rewrite <- app_assoc, lastOr_app, length_app, Nat.add_assoc.
    split; [reflexivity |]. split; [| exact K].
    exists x1, x2, cmid. auto.
  - apply orElse_eq in H. destruct H as [H | H];
      [apply IHa in H | apply IHb in H];
      destruct H as [x [post [cout [E [L K]]]]]; exists x, post, cout; auto.
  - apply rep_some in H. destruct H as [x [post [E [F [L [W K]]]]]].
    exists x, post, cap. auto 7.
  - apply IHa in H. destruct H as [x [post [cmid [E [L K]]]]].
    exists x, post, (Some x). subst rest. rewrite firstn_app_exact in K.
    split; [reflexivity |]. split; [| exact K]. split; [| reflexivity].
    exact (langc_lang a _ _ _ _ _ L).
  - destruct (xorb _ _) eqn:B; [| discriminate H].
    exists [], rest, cap. simpl. now rewrite Nat.add_0_r.
  - destruct prev; [discriminate H |].
    exists [], rest, cap. simpl. now rewrite Nat.add_0_r.
  - destruct prev as [c|]; [| discriminate H].
    destruct (p c) eqn:Pc; [| discriminate H].
    exists [], rest, cap. simpl. rewrite Nat.add_0_r. eauto 8.
Qed.

Lemma searchFrom_some (r : re) (rest : str) :
  forall prev i j n cap,
    searchFrom r prev rest i = Some (j, n, cap) ->
    exists pre x post,
      rest = pre ++ x ++ post /\ langc r (lastOr prev pre) x post None cap /\
      j = i + List.length pre /\ n = List.length x.
Proof.
  assert (Here : forall prev rest' i j n cap,
            matchAt r prev rest' = Some (n, cap) -> i = j ->
            exists pre x post,
              rest' = pre ++ x ++ post /\
              langc r (lastOr prev pre) x post None cap /\
              j = i + List.length pre /\ n = List.length x).
  { intros prev rest' i j n cap M <-. unfold matchAt in M.
    apply run_some in M. destruct M as [x [post [cout [E [L K]]]]].
    injection K as <- <-. exists [], x, post. simpl. rewrite Nat.add_0_r. auto. }
  induction rest as [|c t IH]; intros prev i j n cap H; cbn [searchFrom] in H.
  - destruct (matchAt r prev []) as [[m cm]|] eqn:M; [| discriminate H].
    injection H as <- <- <-. now apply (Here prev [] i i m cm).
  - destruct (matchAt r prev (c :: t)) as [[m cm]|] eqn:M.
    + injection H as <- <- <-. now apply (Here prev (c :: t) i i m cm).
    + apply IH in H. destruct H as [pre [x [post [E [L [J N]]]]]].
      exists (c :: pre), x, post. subst t. simpl. repeat split; auto. lia.
Qed.

(** The first match of a pattern: where it is, what it matched and what it
    captured. *)
Lemma exec_some (r : re) (s : str) (i n : nat) (cap : option str) :
  exec r s = Some (i, n, cap) ->
  exists pre x post,
    s = pre ++ x ++ post /\ langc r (lastOr None pre) x post None cap /\
    i = List.length pre /\ n = List.length x.
Proof. intros H. apply searchFrom_some in H. exact H. Qed.

(** The owner pattern captures a capitalised word after the word for. *)
Lemma exec_reOwner (s : str) (i n : nat) (o : str) :
  exec reOwner s = Some (i, n, Some o) ->
  exists pre ws post c w,
    s = pre ++ (lit "for" ++ ws ++ o) ++ post /\
    ws <> [] /\ forallb isSpace ws = true /\
    o = c :: w /\ isUpperAZ c = true /\ w <> [] /\ forallb isLowerAZ w = true.
Proof.
  intros H. apply exec_some in H. destruct H as [pre [x [post [E [L _]]]]].
  unfold reOwner, plus in L. cbn [langc] in L.
  destruct L as (x0 & x1 & c0 & E0 & (L0 & _) & L).
  destruct L as (f & x2 & c1 & E1 & Lf & L).
  destruct L as (ws & x3 & c2 & E2 & (Lw & _) & L & C).
  apply langc_lang in Lf. apply lang_txt in Lf.
  cbn [lang] in L0, Lw, L. destruct L0 as [-> _].
  destruct Lw as (Fw & Lw & _).
  destruct L as (u & w & Eo & (c & -> & Uc) & Fl & Ll & _).
  injection C as ->. subst x x1 x2 f x3.
  exists pre, ws, post, c, w. simpl in E |- *.
  repeat split; auto.
  - destruct ws; [simpl in Lw; lia | discriminate].
  - destruct w; [simpl in Ll; lia | discriminate].
Qed.

(* ================================================================== *)
(** ** Words in any letter case *)

Lemma lang_txtI (w : string) (prev : option char) (x post : str) :
  lang (txtI w) prev x post <-> SameText x (lit w).
Proof.
  unfold txtI, lit, SameText. revert prev x.
  induction (list_ascii_of_string w) as [|a l IH]; intros prev x; simpl.
  - split; [intros ->; reflexivity | intros H; now destruct x].
  - split.
    + intros [x1 [x2 [-> [[c [-> C]] L]]]]. apply IH in L.
      apply N.eqb_eq in C. simpl. unfold ch in C. now rewrite C, L.
    + intros H. destruct x as [|c x]; [discriminate H |].
      simpl in H. injection H as Hc Hx.
      exists [c], x. split; [reflexivity |]. split.
      * exists c. split; [reflexivity |]. unfold oneI, ch. now apply N.eqb_eq.
      * now apply IH.
Qed.

Lemma lastOr_None (pre : str) : lastOr None pre = None <-> pre = [].
Proof.
  split; [| intros ->; reflexivity].
  destruct pre as [|c pre]; [reflexivity |].
  intros H. exfalso. revert c H. induction pre as [|d pre IH]; intros c H.
  - discriminate H.
  - apply (IH d). exact H.
Qed.

Lemma isUpperAZ_isWord (c : char) : isUpperAZ c = true -> isWord c = true.
Proof. unfold isWord. now intros ->. Qed.

Lemma isLowerAZ_isWord (c : char) : isLowerAZ c = true -> isWord c = true.
Proof. unfold isWord. intros ->. now rewrite orb_true_r. Qed.

(** A code unit that is a letter up to case is a word character. *)
Lemma upperChar_letter_isWord (c u : char) :
  upperChar c = u -> isUpperAZ u = true -> isWord c = true.
Proof.
  unfold upperChar. destruct (isLowerAZ c) eqn:L.
  - intros _ _. now apply isLowerAZ_isWord.
  - intros -> U. now apply isUpperAZ_isWord.
Qed.

Lemma SameText_first_word (x w : str) (c : char) (t : str) :
  SameText x (c :: t) -> isUpperAZ (upperChar c) = true ->
  isWordOpt (hd_error x) = true.
Proof.
  unfold SameText. destruct x as [|y x]; [discriminate |].
  simpl. intros H U. injection H as H _.
  now apply (upperChar_letter_isWord y (upperChar c)).
Qed.

Lemma lastOr_rev (x r : str) (y : char) :
  rev x = y :: r -> forall prev, lastOr prev x = Some y.
Proof.
  intros E prev. rewrite <- (rev_involutive x), E. simpl.
  now rewrite lastOr_app.
Qed.

Lemma SameText_last_word (x w : str) (c : char) :
  SameText x (w ++ [c]) -> isUpperAZ (upperChar c) = true ->
  forall prev, isWordOpt (lastOr prev x) = true.
Proof.
  unfold SameText. intros H U prev.
  apply (f_equal (@rev char)) in H. rewrite <- !map_rev, rev_app_distr in H.
  destruct (rev x) as [|y r] eqn:R; [discriminate H |].
  simpl in H. injection H as Hy _.
  rewrite (lastOr_rev x r y R). simpl.
  now apply (upperChar_letter_isWord y (upperChar c)).
Qed.

(** The waiting pattern finds the four waiting words as whole words. *)
Lemma test_reWaiting (s : str) : test reWaiting s = true <-> WaitingWord s.
Proof.
  rewrite test_Occurs. unfold Occurs, WaitingWord, reWaiting. split.
  - intros [pre [x [post [E L]]]]. cbn [lang] in L.
    destruct L as (x0 & x1 & Ex & (Ex0 & B1) & L).
    destruct L as (w & x2 & Ex1 & L & Ex2 & B2).
    subst x x0 x1 x2. rewrite !lang_txtI in L.
    rewrite app_nil_r in *. simpl in E, B1.
    assert (W : exists v,
               In v [lit "wait"; lit "await"; lit "response"; lit "hear back"] /\
               SameText w v /\
               isWordOpt (hd_error w) = true /\
               (forall prev, isWordOpt (lastOr prev w) = true)).
    { destruct L as [L | [L | [L | L]]].
      - exists (lit "wait"). simpl. repeat split; auto.
        + exact (SameText_first_word w (lit "wait") _ _ L eq_refl).
        + exact (SameText_last_word w (lit "wai") (ch "t") L eq_refl).
      - exists (lit "await"). simpl. repeat split; auto.
        + exact (SameText_first_word w (lit "await") _ _ L eq_refl).
        + exact (SameText_last_word w (lit "awai") (ch "t") L eq_refl).
      - exists (lit "response"). simpl. repeat split; auto.
        + exact (SameText_first_word w (lit "response") _ _ L eq_refl).
        + exact (SameText_last_word w (lit "respons") (ch "e") L eq_refl).
      - exists (lit "hear back"). simpl. repeat split; auto 6.
        + exact (SameText_first_word w (lit "hear back") _ _ L eq_refl).
        + exact (SameText_last_word w (lit "hear bac") (ch "k") L eq_refl). }
    destruct W as [v [I [S [H1 H2]]]].
    exists pre, w, post, v. split; [exact E |]. split; [exact I |].
    split; [exact S |].
    rewrite H2 in B2. apply xorb_word_r in B2.
    destruct w as [|y w]; [discriminate H1 |].
    simpl in B1, H1. rewrite H1 in B1. apply xorb_word_l in B1.
    split; assumption.
  - intros [pre [x [post [w [E [I [S [W1 W2]]]]]]]].
    exists pre, x, post. split; [exact E |]. cbn [lang].
    assert (H : isWordOpt (hd_error x) = true /\
                isWordOpt (lastOr (lastOr None pre) x) = true /\
                (lang (txtI "wait") (lastOr (lastOr None pre) []) x ([] ++ post) \/
                 lang (txtI "await") (lastOr (lastOr None pre) []) x ([] ++ post) \/
                 lang (txtI "response") (lastOr (lastOr None pre) []) x ([] ++ post) \/
                 lang (txtI "hear back") (lastOr (lastOr None pre) []) x ([] ++ post))).
    { rewrite !lang_txtI. simpl in I.
      destruct I as [<- | [<- | [<- | [<- | []]]]].
      - split; [exact (SameText_first_word x (lit "wait") _ _ S eq_refl) |].
        split; [exact (SameText_last_word x (lit "wai") (ch "t") S eq_refl _) | auto].
      - split; [exact (SameText_first_word x (lit "await") _ _ S eq_refl) |].
        split; [exact (SameText_last_word x (lit "awai") (ch "t") S eq_refl _) | auto].
      - split; [exact (SameText_first_word x (lit "response") _ _ S eq_refl) |].
        split; [exact (SameText_last_word x (lit "respons") (ch "e") S eq_refl _) | auto].
      - split; [exact (SameText_first_word x (lit "hear back") _ _ S eq_refl) |].
        split; [exact (SameText_last_word x (lit "hear bac") (ch "k") S eq_refl _) | auto]. }
    destruct H as [H1 [H2 L]].
    exists [], x. split; [reflexivity |]. split.
    { split; [reflexivity |]. destruct x as [|y x]; [discriminate H1 |].
      simpl in *. rewrite H1. now apply xorb_word_l. }
    exists x, []. split; [now rewrite app_nil_r |]. split; [exact L |].
    split; [reflexivity |]. simpl. rewrite H2. now apply xorb_word_r.
Qed.

(** X9: the follow-up recommendation by its rules, the first that applies:
    high priority; else a waiting word (wait, await, response, hear back,
    as whole words in any letter case) in the content; else some task;
    else the archive advice. *)
Theorem buildFollowUpRecommendation_rules (priority : Priority) (tasks : list Task)
    (content : str) :
  (priority = high ->
     buildFollowUpRecommendation priority tasks content
     = lit "Follow up within 4 business hours and confirm ownership of each task.") /\
  (priority <> high -> WaitingWord content ->
     buildFollowUpRecommendation priority tasks content
     = lit "Schedule a reminder in 2 days to check for updates.") /\
  (priority <> high -> ~ WaitingWord content -> tasks <> [] ->
     buildFollowUpRecommendation priority tasks content
     = lit "Log tasks in your system and share a progress update within 24 hours.") /\
  (priority <> high -> ~ WaitingWord content -> tasks = [] ->
     buildFollowUpRecommendation priority tasks content
     = lit "Archive for now, revisit over the weekend for any broader updates.").
Proof.
  assert (W : ~ WaitingWord content -> test reWaiting content = false).
  { intros N. destruct (test reWaiting content) eqn:E; [| reflexivity].
    apply test_reWaiting in E. contradiction. }
  unfold buildFollowUpRecommendation.
  split; [intros ->; reflexivity |].
  split; [intros P Y; apply test_reWaiting in Y; rewrite Y;
          destruct priority; try reflexivity; congruence |].
  split; intros P N T; rewrite (W N).
  - destruct tasks; [congruence |]. destruct priority; try reflexivity; congruence.
  - subst tasks. destruct priority; try reflexivity; congruence.
Qed.

Lemma test_reBullet (t : str) : test reBullet t = true <-> BulletStart t.
Proof.
  rewrite test_Occurs. unfold Occurs, BulletStart, reBullet, plus. split.
  - intros [pre [x [post [E L]]]]. cbn [lang] in L.
    destruct L as (x0 & x1 & -> & (-> & P) & L).
    apply lastOr_None in P. subst pre. simpl in E, L.
    destruct L as [(c & -> & C) | [(c & -> & C) | L]].
    + apply N.eqb_eq in C. subst c. left. eauto.
    + apply N.eqb_eq in C. subst c. right. left. eauto.
    + destruct L as (ds & d & -> & (F & Ld & _) & (c & -> & C)).
      apply N.eqb_eq in C. subst c. right. right.
      exists ds, post. rewrite <- app_assoc in E.
      repeat split; auto. destruct ds; [simpl in Ld; lia | discriminate].
  - intros [[rest ->] | [[rest ->] | [ds [rest [N [F ->]]]]]].
    + exists [], [ch "*"], rest. split; [reflexivity |]. cbn [lang].
      exists [], [ch "*"]. repeat split. left. exists (ch "*"). auto.
    + exists [], [ch "-"], rest. split; [reflexivity |]. cbn [lang].
      exists [], [ch "-"]. repeat split. right. left. exists (ch "-"). auto.
    + exists [], (ds ++ [ch "."]), rest.
      split; [now rewrite <- app_assoc |]. cbn [lang].
      exists [], (ds ++ [ch "."]). repeat split. right. right.
      exists ds, [ch "."]. repeat split; auto.
      * destruct ds; [congruence | simpl; lia].
      * exists (ch "."). auto.
Qed.

Lemma test_reAsk (line : str) : test reAsk line = true <-> AskWord line.
Proof.
  rewrite test_Occurs. unfold Occurs, AskWord, InfixI, reAsk. cbn [lang].
  setoid_rewrite lang_txtI. split.
  - intros [pre [x [post [E [L | [L | [L | L]]]]]]];
      eexists; (split; [| exists pre, x, post; split; [exact E | exact L]]);
      simpl; auto.
  - intros [w [I [pre [x [post [E S]]]]]]. exists pre, x, post.
    split; [exact E |]. simpl in I.
    destruct I as [<- | [<- | [<- | [<- | []]]]]; auto.
Qed.

(** Which lines give a task: those that begin with a bullet once trimmed,
    and those that contain an asking word in any letter case. *)
Lemma isTaskLine_iff (line : str) :
  isTaskLine line = true <-> BulletStart (trim line) \/ AskWord line.
Proof.
  unfold isTaskLine. now rewrite orb_true_iff, test_reBullet, test_reAsk.
Qed.

(* ================================================================== *)
(** ** Replies and drafts *)

(** X11: the body of a reply begins with its intro, a blank line and the
    summary, and ends with the fixed sign-off.  The intro is the opening
    of the tone when the persona is absent or empty; with a persona it is
    the greeting by name followed by the opening with its first word in
    lower case, except in the concise tone, whose opening has no thanks to
    attach the greeting to and stays as it is. *)
Theorem generateReply_intro (t : Tone) (tasks : list Task) (summary : str)
    (persona : option str) :
  exists rest,
    reply_body (generateReply t tasks summary persona)
    = replyIntro t persona ++ [nl; nl] ++ summary ++ rest /\
    EndsWith rest ([nl; nl] ++ lit "Best," ++ [nl] ++ lit "Your Email Agent").
Proof.
  unfold generateReply. cbn [reply_body].
  set (intro := if truthyOpt persona then _ else _).
  assert (I : intro = replyIntro t persona).
  { unfold intro. destruct persona as [[|c p]|]; try reflexivity.
    destruct t; cbn [truthyOpt truthy replyIntro]; unfold replaceFirstFn;
      match goal with
      | |- context [exec ?r ?s] =>
          let v := eval vm_compute in (exec r s) in
          change (exec r s) with v
      end; cbv beta iota; simpl; rewrite <- ?app_assoc; reflexivity. }
  rewrite I. eexists. split.
  - reflexivity.
  - exists ((if Nat.ltb 0 (List.length tasks)
             then [nl; nl] ++ lit "Here's what I'm tracking:" ++ [nl]
                    ++ join [nl] (map taskBullet tasks)
             else []) ++ [nl; nl] ++ tpl_closing (FOLLOW_UP_TEMPLATES t)).
    rewrite <- !app_assoc. reflexivity.
Qed.

(** X12: the opening of a draft is the opening of the tone when the
    audience is blank; otherwise it is Hi (friendly, warm) or Hello, the
    trimmed audience, a comma and the opening with a leading Thank you or
    Thanks in lower case. *)
Theorem craftOpening_cases (t : Tone) (audience : str) :
  (Forall (fun x => isSpace x = true) audience ->
     craftOpening (tpl_opening (FOLLOW_UP_TEMPLATES t)) audience t
     = tpl_opening (FOLLOW_UP_TEMPLATES t)) /\
  (~ Forall (fun x => isSpace x = true) audience ->
     craftOpening (tpl_opening (FOLLOW_UP_TEMPLATES t)) audience t
     = greetingOf t ++ lit " " ++ trim audience ++ lit ", " ++ softOpening t).
Proof.
  unfold craftOpening. split; intros H.
  - apply trim_nil in H. now rewrite H.
  - destruct (truthy (trim audience)) eqn:T.
    + cbn [negb]. unfold greetingOf.
      destruct t; cbn [isSoftTone]; do 3 f_equal; f_equal; vm_compute; reflexivity.
    + apply truthy_false, trim_nil in T. contradiction.
Qed.

(** X1: the subject of a draft by its rules, the first that applies: the
    fallback for an empty objective; else a fixed subject for the first of
    update, intro, meeting, feedback that the lower-cased objective
    contains; else the capitalized objective.  An objective that contains
    update in any letter case gets the update subject whatever else it
    contains. *)
Theorem craftSubjectFromObjective_rules (objective fallback : str) :
  let normalized := toLowerCase objective in
  (objective = [] -> craftSubjectFromObjective objective fallback = fallback) /\
  (objective <> [] -> Infix (lit "update") normalized ->
     craftSubjectFromObjective objective fallback = lit "Quick project update") /\
  (objective <> [] -> ~ Infix (lit "update") normalized ->
   Infix (lit "intro") normalized ->
     craftSubjectFromObjective objective fallback
     = lit "Introduction and next steps") /\
  (objective <> [] -> ~ Infix (lit "update") normalized ->
   ~ Infix (lit "intro") normalized -> Infix (lit "meeting") normalized ->
     craftSubjectFromObjective objective fallback
     = lit "Proposed agenda for our meeting") /\
  (objective <> [] -> ~ Infix (lit "update") normalized ->
   ~ Infix (lit "intro") normalized -> ~ Infix (lit "meeting") normalized ->
   Infix (lit "feedback") normalized ->
     craftSubjectFromObjective objective fallback
     = lit "Feedback and proposed improvements") /\
  (objective <> [] -> ~ Infix (lit "update") normalized ->
   ~ Infix (lit "intro") normalized -> ~ Infix (lit "meeting") normalized ->
   ~ Infix (lit "feedback") normalized ->
     craftSubjectFromObjective objective fallback = capitalize objective) /\
  (forall pre w post,
     objective = pre ++ w ++ post -> map lowerChar w = lit "update" ->
     craftSubjectFromObjective objective fallback = lit "Quick project update").
Proof.
  intros normalized.
  assert (U : objective <> [] -> Infix (lit "update") normalized ->
              craftSubjectFromObjective objective fallback
              = lit "Quick project update").
  { intros N I. unfold craftSubjectFromObjective. fold normalized.
    apply truthy_true in N. apply includes_infix in I. now rewrite N, I. }
  split; [intros ->; reflexivity |].
  split; [exact U |].
  unfold craftSubjectFromObjective. fold normalized.
  repeat split; try (intros N; apply truthy_true in N; rewrite N; cbn [negb]);
    intros;
    repeat match goal with
           | H : Infix _ _ |- _ => apply includes_infix in H; rewrite H
           | H : ~ Infix _ _ |- _ => apply includes_not_infix in H; rewrite H
           end; try reflexivity.
  subst objective. apply U.
  - destruct w; [discriminate | destruct pre; discriminate].
  - now apply Infix_any_case.
Qed.

Lemma capitalize_nonempty (s : str) : s <> [] -> capitalize s <> [].
Proof.
  intros N. apply truthy_true. rewrite truthy_capitalize. now apply truthy_true.
Qed.

Lemma craftSubjectFromObjective_nonempty (objective fallback : str) :
  fallback <> [] -> craftSubjectFromObjective objective fallback <> [].
Proof.
  intros F. unfold craftSubjectFromObjective.
  destruct objective as [|c o]; [exact F |]. cbn [truthy negb].
  repeat match goal with
         | |- (if ?b then _ else _) <> _ => destruct b; [discriminate |]
         end.
  apply capitalize_nonempty. discriminate.
Qed.

(** X2: the subject of a draft is never empty, whatever the request. *)
Theorem composeEmail_subject_nonempty (audience objective : str) (tone : Tone)
    (keyPoints : list str) (callToAction signature : option str) :
  subject (composeEmail audience objective tone keyPoints callToAction signature)
  <> [].
Proof.
  unfold composeEmail. cbn [subject].
  apply craftSubjectFromObjective_nonempty. destruct tone; discriminate.
Qed.

(** *** Key points *)

Lemma truthy_trim (k : str) : truthy (trim k) = negb (forallb isSpace k).
Proof.
  destruct (forallb isSpace k) eqn:F.
  - apply truthy_false, trim_nil, Forall_forall.
    rewrite forallb_forall in F. exact F.
  - apply truthy_true. intros E. apply trim_nil in E.
    rewrite Forall_forall in E. rewrite <- forallb_forall in E. congruence.
Qed.

Lemma cleanPoints_length (keyPoints : list str) :
  List.length
    (map (fun point => if startsWith point (lit "-") then trim (skipn 1 point)
                       else point)
         (filter truthy (map trim keyPoints)))
  = List.length (nonBlankPoints keyPoints).
Proof.
  rewrite length_map, filter_map_swap, length_map. unfold nonBlankPoints.
  f_equal. apply filter_ext. intros k. apply truthy_trim.
Qed.

Lemma Infix_mid (a x b : str) : Infix x (a ++ x ++ b).
Proof. exists a, b. reflexivity. Qed.

Lemma EndsWith_app (a x : str) : EndsWith (a ++ x) x.
Proof. exists a. reflexivity. Qed.

(** X3: the cadence tip is the tip of the tone, followed by the advice on
    bolding exactly when more than two key points are not blank; when every
    key point is blank the body has the line about the attachments. *)
Theorem composeEmail_cadence (audience objective : str) (tone : Tone)
    (keyPoints : list str) (callToAction signature : option str) :
  let r := composeEmail audience objective tone keyPoints callToAction signature in
  let n := List.length (nonBlankPoints keyPoints) in
  cadenceTip r
  = baseCadenceTip tone
      ++ (if Nat.ltb 2 n
          then lit " Consider bolding the key decisions to make scanning easier."
          else []) /\
  (n = 0 ->
     Infix ([bullet] ++ lit " Key details are included in the attachments.")
           (body r)).
Proof.
  intros r n. unfold r, composeEmail. cbn [cadenceTip body].
  unfold buildCadenceTip. rewrite cleanPoints_length. fold n. split.
  - destruct (Nat.ltb 2 n); [| rewrite app_nil_r]; destruct tone; reflexivity.
  - intros Z. rewrite Z. cbn [Nat.ltb Nat.leb].
    set (opening := craftOpening _ _ _).
    set (obj := if truthy objective then _ else _).
    set (fallback := [bullet] ++ lit " Key details are included in the attachments.").
    set (tail := _ ++ [nl; nl] ++ tpl_closing _ ++ _).
    replace (opening ++ [nl; nl] ++ obj ++ fallback ++ tail)
      with ((opening ++ [nl; nl] ++ obj) ++ fallback ++ tail)
      by (now rewrite <- !app_assoc).
    apply Infix_mid.
Qed.

(** *** Optional fields of a draft *)

Lemma composeEmail_body_end (audience objective : str) (tone : Tone)
    (keyPoints : list str) (callToAction signature : option str) :
  EndsWith
    (body (composeEmail audience objective tone keyPoints callToAction signature))
    (tpl_closing (FOLLOW_UP_TEMPLATES tone) ++ [nl; nl]
       ++ match signature with Some s => s | None => defaultSignoff tone end).
Proof.
  unfold composeEmail. cbn [body].
  set (opening := craftOpening _ _ _).
  set (obj := if truthy objective then _ else _).
  set (points := if Nat.ltb 0 _ then _ else _).
  set (closing := tpl_closing (FOLLOW_UP_TEMPLATES tone)).
  fold (defaultSignoff tone).
  set (signoff := match signature with Some s => s | None => defaultSignoff tone end).
  set (callout := match callToAction with Some _ => _ | None => _ end).
  replace (opening ++ [nl; nl] ++ obj ++ points ++ callout ++ [nl; nl]
             ++ closing ++ [nl; nl] ++ signoff)
    with ((opening ++ [nl; nl] ++ obj ++ points ++ callout ++ [nl; nl])
            ++ closing ++ [nl; nl] ++ signoff)
    by (now rewrite <- !app_assoc).
  apply EndsWith_app.
Qed.

(** X4: the body of a draft ends with the closing of the tone, a blank
    line and the sign-off; the sign-off is the signature whenever one is
    supplied, the empty one included, and the default of the tone only
    when none is; an empty call to action is the same as none, and any
    other one gives the Next up line before the closing. *)
Theorem composeEmail_optional_fields (audience objective : str) (tone : Tone)
    (keyPoints : list str) (callToAction signature : option str) :
  let r := composeEmail audience objective tone keyPoints callToAction signature in
  EndsWith (body r)
    (tpl_closing (FOLLOW_UP_TEMPLATES tone) ++ [nl; nl]
       ++ match signature with Some s => s | None => defaultSignoff tone end) /\
  composeEmail audience objective tone keyPoints (Some []) signature
  = composeEmail audience objective tone keyPoints None signature /\
  (forall c, callToAction = Some c -> c <> [] ->
     Infix ([nl; nl] ++ lit "Next up: " ++ capitalize c ++ lit "." ++ [nl; nl]
              ++ tpl_closing (FOLLOW_UP_TEMPLATES tone))
           (body r)).
Proof.
  intros r. unfold r, composeEmail. cbn [body].
  set (opening := craftOpening _ _ _).
  set (obj := if truthy objective then _ else _).
  set (points := if Nat.ltb 0 _ then _ else _).
  set (closing := tpl_closing (FOLLOW_UP_TEMPLATES tone)).
  fold (defaultSignoff tone).
  set (signoff := match signature with Some s => s | None => defaultSignoff tone end).
  split; [| split].
  - set (callout := match callToAction with Some _ => _ | None => _ end).
    replace (opening ++ [nl; nl] ++ obj ++ points ++ callout ++ [nl; nl]
               ++ closing ++ [nl; nl] ++ signoff)
      with ((opening ++ [nl; nl] ++ obj ++ points ++ callout ++ [nl; nl])
              ++ closing ++ [nl; nl] ++ signoff)
      by (now rewrite <- !app_assoc).
    apply EndsWith_app.
  - reflexivity.
  - intros c -> N. apply truthy_true in N. rewrite N.
    set (cap := capitalize c).
    replace (opening ++ [nl; nl] ++ obj ++ points
               ++ ([nl; nl] ++ lit "Next up: " ++ cap ++ lit ".")
               ++ [nl; nl] ++ closing ++ [nl; nl] ++ signoff)
      with ((opening ++ [nl; nl] ++ obj ++ points)
              ++ ([nl; nl] ++ lit "Next up: " ++ cap ++ lit "." ++ [nl; nl] ++ closing)
              ++ [nl; nl] ++ signoff)
      by (now rewrite <- !app_assoc).
    apply Infix_mid.
Qed.

(* ================================================================== *)
(** ** Tasks, tags and subjects of an analysis *)

(** X15: the tasks of a content are the tasks of its lines that begin
    with a bullet once trimmed (a star, a dash, or digits and a dot) or
    contain please, can you, could you or action in any letter case, and
    whose description is not empty. *)
Theorem extractTasks_In (content : str) (t : Task) :
  In t (extractTasks content) <->
  exists line,
    In line (split reLineBreak content) /\
    (BulletStart (trim line) \/ AskWord line) /\
    t = taskOfLine line /\ description t <> [].
Proof.
  unfold extractTasks. rewrite filter_In, in_map_iff. split.
  - intros [[line [<- I]] T]. apply filter_In in I. destruct I as [I Q].
    exists line. split; [exact I |]. split; [now apply isTaskLine_iff |].
    split; [reflexivity | now apply truthy_true].
  - intros [line [I [Q [-> T]]]]. split; [| now apply truthy_true].
    exists line. split; [reflexivity |]. apply filter_In.
    split; [exact I | now apply isTaskLine_iff].
Qed.

Lemma taskOfLine_owner (line o : str) :
  owner (taskOfLine line) = Some o ->
  (exists c w,
     o = c :: w /\ isUpperAZ c = true /\ w <> [] /\ forallb isLowerAZ w = true) /\
  (exists pre f ws post,
     description (taskOfLine line) = pre ++ (f :: lit "or" ++ ws ++ o) ++ post /\
     (f = ch "f" \/ f = ch "F") /\ ws <> [] /\ forallb isSpace ws = true).
Proof.
  unfold taskOfLine. cbn [owner description].
  set (d := trim (replaceFirst reBulletStrip [] line)).
  destruct (exec reOwner d) as [[[i n] cap]|] eqn:E; [| discriminate].
  intros ->. apply exec_reOwner in E.
  destruct E as (pre & ws & post & c & w & Ed & Nw & Fw & Eo & Uc & Nl & Fl).
  split; [exists c, w; auto |].
  rewrite Ed. destruct pre as [|y pre].
  - exists [], (ch "F"), ws, post. split; [reflexivity | auto].
  - exists (toUpperCase [y] ++ pre), (ch "f"), ws, post. split; [| auto].
    unfold capitalize. cbn [app].
    exact (app_assoc (toUpperCase [y]) pre _).
Qed.

Lemma extractTasks_In_line (content : str) (t : Task) :
  In t (extractTasks content) -> exists line, t = taskOfLine line.
Proof.
  unfold extractTasks. intros I. apply filter_In in I. destruct I as [I _].
  apply in_map_iff in I. destruct I as [line [<- _]]. eauto.
Qed.

(** X14: the owner of a task, when there is one, is a capital letter
    followed by one or more small letters, and it stands in the
    description after the word for and whitespace. *)
Theorem extractTasks_owner_shape (content : str) (t : Task) (o : str) :
  In t (extractTasks content) -> owner t = Some o ->
  (exists c w,
     o = c :: w /\ isUpperAZ c = true /\ w <> [] /\ forallb isLowerAZ w = true) /\
  (exists pre f ws post,
     description t = pre ++ (f :: lit "or" ++ ws ++ o) ++ post /\
     (f = ch "f" \/ f = ch "F") /\ ws <> [] /\ forallb isSpace ws = true).
Proof.
  intros I. apply extractTasks_In_line in I. destruct I as [line ->].
  apply taskOfLine_owner.
Qed.

(** *** Tags and owners *)

Lemma extractTasks_owner_truthy (content : str) (t : Task) :
  In t (extractTasks content) ->
  truthyOpt (owner t) = true <-> owner t <> None.
Proof.
  intros I. destruct (owner t) as [o|] eqn:O; simpl; [| split; congruence].
  apply extractTasks_In_line in I. destruct I as [line ->].
  destruct (taskOfLine_owner line o O) as [[c [w [-> _]]] _].
  simpl. split; [discriminate | reflexivity].
Qed.

(** X10: Delegation is among the tags of an analysis iff some task has an
    owner; it never comes without Action items; and there are between two
    and four tags. *)
Theorem analyzeEmail_delegation (content : str) (threadHistory persona : option str) :
  let r := analyzeEmail content threadHistory persona in
  (In (lit "Delegation") (tags r) <->
     exists t, In t (tasks r) /\ owner t <> None) /\
  (In (lit "Delegation") (tags r) -> In (lit "Action items") (tags r)) /\
  2 <= List.length (tags r) <= 4.
Proof.
  intros r. unfold r, analyzeEmail. cbn [tags tasks].
  set (p := determinePriority content). set (s := detectSentiment content).
  set (ts := extractTasks content).
  assert (D : In (lit "Delegation") (buildTags p s ts) <->
              existsb (fun task => truthyOpt (owner task)) ts = true).
  { rewrite buildTags_shape.
    destruct (existsb (fun task => truthyOpt (owner task)) ts);
      destruct (Nat.ltb 0 (List.length ts)); destruct p, s; vm_compute;
      intuition discriminate. }
  split; [| split].
  - rewrite D, existsb_exists.
    split; intros [t [I O]]; exists t; (split; [exact I |]);
      now apply (extractTasks_owner_truthy content t I).
  - rewrite D, buildTags_action_items. intros E.
    apply existsb_exists in E. destruct E as [t [I _]].
    intros N. fold ts in N. rewrite N in I. destruct I.
  - rewrite buildTags_shape.
    destruct (existsb (fun task => truthyOpt (owner task)) ts);
      destruct (Nat.ltb 0 (List.length ts)); destruct p, s; vm_compute; lia.
Qed.

(** X7: the fields of an analysis agree on urgency: when the priority is
    high the tags have Hot, the subject suggestion begins with the Urgent
    tag, the follow-up is the four-hours one and the reply subject is
    Action needed; when it is not, none of these holds and the reply
    subject is the professional one. *)
Theorem analyzeEmail_urgent_fields (content : str) (threadHistory persona : option str) :
  let r := analyzeEmail content threadHistory persona in
  (priority r = high ->
     In (lit "Hot") (tags r) /\
     startsWith (subjectSuggestion r) (lit "[Urgent] ") = true /\
     followUpRecommendation r
     = lit "Follow up within 4 business hours and confirm ownership of each task." /\
     reply_subject (recommendedReply r) = lit "Action needed") /\
  (priority r <> high ->
     ~ In (lit "Hot") (tags r) /\
     startsWith (subjectSuggestion r) (lit "[Urgent] ") = false /\
     followUpRecommendation r
     <> lit "Follow up within 4 business hours and confirm ownership of each task." /\
     reply_subject (recommendedReply r) = lit "Quick follow-up on your message").
Proof.
  intros r. unfold r, analyzeEmail.
  cbn [priority tags subjectSuggestion followUpRecommendation recommendedReply].
  set (s := detectSentiment content). set (ts := extractTasks content).
  rewrite buildTags_shape. unfold buildSubject, buildFollowUpRecommendation.
  destruct (determinePriority content); (split; [intros P | intros P]);
    try discriminate P; try congruence.
  all: repeat split.
  all: try (destruct (existsb _ ts), (Nat.ltb 0 (List.length ts)), s; vm_compute;
            intuition discriminate).
  all: try (destruct ts as [|t ts']; [destruct s; reflexivity |];
            destruct (truthy (description t)); destruct s; reflexivity).
  all: try (destruct (test reWaiting content), (Nat.ltb 0 (List.length ts));
            discriminate).
  all: try reflexivity.
Qed.

Lemma extractTasks_description_nonempty (content : str) (t : Task) :
  In t (extractTasks content) -> description t <> [].
Proof.
  unfold extractTasks. intros I. apply filter_In in I. now apply truthy_true.
Qed.

(** X8: the subject suggestion of an analysis is the fallback of the
    priority exactly when there is no task; with tasks it is the bracketed
    tag and the description of the first task; it is never empty. *)
Theorem analyzeEmail_subject (content : str) (threadHistory persona : option str) :
  let r := analyzeEmail content threadHistory persona in
  (tasks r = [] -> subjectSuggestion r = subjectFallback (priority r)) /\
  (forall t ts,
     tasks r = t :: ts ->
     subjectSuggestion r
     = lit "[" ++ subjectTag (priority r) (sentiment r) ++ lit "] " ++ description t) /\
  subjectSuggestion r <> [].
Proof.
  intros r. unfold r, analyzeEmail. cbn [tasks subjectSuggestion priority sentiment].
  set (p := determinePriority content). set (s := detectSentiment content).
  assert (L : forall t ts, extractTasks content = t :: ts ->
                buildSubject (extractTasks content) p s
                = lit "[" ++ subjectTag p s ++ lit "] " ++ description t).
  { intros t ts E.
    assert (N : description t <> [])
      by (apply (extractTasks_description_nonempty content); rewrite E; now left).
    rewrite E. unfold buildSubject. apply truthy_true in N. rewrite N.
    destruct p, s; reflexivity. }
  split; [| split].
  - intros ->. destruct p; reflexivity.
  - exact L.
  - destruct (extractTasks content) as [|t ts] eqn:E.
    + destruct p; discriminate.
    + rewrite (L t ts eq_refl). discriminate.
Qed.

(** X18: whitespace before and after the content of an analyze request
    does not change the answer. *)
Theorem POST_content_padding (payload : Payload) (a c b : str) :
  mode payload = lit "analyze" -> AllSpace a -> AllSpace b ->
  POST (withContent payload (Some (a ++ c ++ b)))
  = POST (withContent payload (Some c)).
Proof.
  intros M A B. unfold POST, handle, withContent.
  cbn [mode content threadHistory persona option_map].
  now rewrite (trim_pad a c b A B).
Qed.

(* ================================================================== *)
(** ** The page and the route *)

(** X16: the analyze button: for a blank email the page shows its own
    message and sends nothing; otherwise, with the route answering, it
    shows the analysis of the trimmed email with the thread history and
    the persona of the form, so the validation error of the route is never
    shown. *)
Theorem handleAnalyze_served (incomingEmail threadHistory persona : str)
    (panel : Panel) :
  (AllSpace incomingEmail ->
     forall fetch,
       handleAnalyze fetch incomingEmail threadHistory persona panel
       = mkPanel (result panel)
           (Some (lit "Drop in the email you want the agent to triage first."))
           (busy panel)) /\
  (~ AllSpace incomingEmail ->
     handleAnalyze served incomingEmail threadHistory persona panel
     = mkPanel
         (Some (AnalyzeBody
                  (analyzeEmail (trim incomingEmail) (Some threadHistory)
                     (Some persona))))
         None false) /\
  error (handleAnalyze served incomingEmail threadHistory persona panel)
  <> Some (lit "Email content is required.").
Proof.
  assert (B : AllSpace incomingEmail ->
     forall fetch,
       handleAnalyze fetch incomingEmail threadHistory persona panel
       = mkPanel (result panel)
           (Some (lit "Drop in the email you want the agent to triage first."))
           (busy panel)).
  { intros A fetch. unfold handleAnalyze. apply trim_nil in A. now rewrite A. }
  assert (N : ~ AllSpace incomingEmail ->
     handleAnalyze served incomingEmail threadHistory persona panel
     = mkPanel
         (Some (AnalyzeBody
                  (analyzeEmail (trim incomingEmail) (Some threadHistory)
                     (Some persona))))
         None false).
  { intros A. unfold handleAnalyze.
    destruct (truthy (trim incomingEmail)) eqn:T;
      [| apply truthy_false, trim_nil in T; contradiction].
    cbn [negb]. unfold settle, served, POST, handle, analyzeRequest.
    cbn [mode content Agent.threadHistory Agent.persona option_map truthyOpt].
    change (str_eqb (lit "analyze") (lit "analyze")) with true.
    cbv iota. rewrite T. reflexivity. }
  split; [exact B | split; [exact N |]].
  destruct (truthy (trim incomingEmail)) eqn:T.
  - rewrite N; [discriminate |].
    intros A. apply trim_nil in A. rewrite A in T. discriminate T.
  - apply truthy_false, trim_nil in T. rewrite (B T served). discriminate.
Qed.

(** X17: the compose button: for a blank objective the page shows its own
    message and sends nothing; otherwise, with the route answering, it
    shows the draft for the trimmed fields and the lines of the key
    points; the subject of that draft never is the fallback, and the body
    ends with the signature of the form, never with the default
    sign-off. *)
Theorem handleCompose_served (audience objective : str) (tone : Tone)
    (keyPoints callToAction signature : str) (panel : Panel) :
  let draft :=
    composeEmail (trim audience) (trim objective) tone
      (split reLineBreak keyPoints) (Some (trim callToAction))
      (Some (trim signature)) in
  (AllSpace objective ->
     forall fetch,
       handleCompose fetch audience objective tone keyPoints callToAction
         signature panel
       = mkPanel None (Some (lit "Give the agent a clear objective to aim for."))
           (busy panel)) /\
  (~ AllSpace objective ->
     handleCompose served audience objective tone keyPoints callToAction
       signature panel
     = mkPanel (Some (ComposeBody draft)) None false /\
     (forall fallback,
        subject draft = craftSubjectFromObjective (trim objective) fallback) /\
     EndsWith (body draft)
       (tpl_closing (FOLLOW_UP_TEMPLATES tone) ++ [nl; nl] ++ trim signature)).
Proof.
  intros draft. split.
  - intros A fetch. unfold handleCompose. apply trim_nil in A. now rewrite A.
  - intros A.
    assert (T : truthy (trim objective) = true).
    { destruct (truthy (trim objective)) eqn:T; [reflexivity |].
      apply truthy_false, trim_nil in T. contradiction. }
    split; [| split].
    + unfold handleCompose. rewrite T. reflexivity.
    + intros fallback. unfold draft, composeEmail. cbn [subject].
      unfold craftSubjectFromObjective. now rewrite T.
    + exact (composeEmail_body_end (trim audience) (trim objective)
               tone (split reLineBreak keyPoints) (Some (trim callToAction))
               (Some (trim signature))).
Qed.

(* ================================================================== *)
(** ** Due dates *)

Section Pieces.
Variable p : char -> bool.

(** The pieces between the runs of a class hold no code unit of it. *)
Lemma splitGo_plus_pieces (rest : str) :
  forall prev skip cur piece c,
    skip = 0 \/ skip = spanLen p rest ->
    (forall x, In x cur -> p x = false) ->
    In piece (splitGo (plus p) prev rest skip cur) -> In c piece ->
    p c = false.
Proof.
  induction rest as [|x t IH]; intros prev skip cur piece c S C P I.
  - simpl in P. destruct P as [<- | []]. apply C. now apply in_rev.
  - assert (Z : forall prev',
               In piece (splitGo (plus p) prev' (x :: t) 0 cur) -> p c = false).
    { intros prev' P'. cbn [splitGo] in P'. rewrite matchAt_plus in P'.
      cbn [spanLen] in P'. destruct (p x) eqn:X.
      - destruct P' as [<- | P'].
        + apply C. now apply in_rev.
        + apply (IH (Some x) (spanLen p t) [] piece c); auto.
          intros y [].
      - apply (IH (Some x) 0 (x :: cur) piece c); auto.
        intros y [<- | Y]; [exact X | now apply C]. }
    destruct S as [-> | ->]; [now apply (Z prev) |].
    cbn [spanLen] in P. destruct (p x) eqn:X; [| now apply (Z prev)].
    cbn [splitGo] in P. apply (IH (Some x) (spanLen p t) cur piece c); auto.
Qed.

Lemma split_plus_pieces (s piece : str) (c : char) :
  In piece (split (plus p) s) -> In c piece -> p c = false.
Proof.
  destruct s as [|x t]; unfold split.
  - rewrite matchAt_plus. simpl. intros [<- | []] [].
  - apply splitGo_plus_pieces; [now left | intros y []].
Qed.
End Pieces.

Lemma In_capitalize (s : str) (c : char) :
  In c (capitalize s) -> isSpace c = true -> exists x, In x s /\ isSpace x = true.
Proof.
  destruct s as [|y s]; [intros [] |]. unfold capitalize.
  intros I S. apply in_app_or in I. destruct I as [I | I].
  - exists y. split; [now left |].
    destruct (isSpace y) eqn:Y; [reflexivity |].
    destruct (toUpperCase_unit_shape y) as [_ H].
    rewrite (H Y c I) in S. discriminate.
  - exists c. split; [now right | exact S].
Qed.

(** A title-cased text is one line: its only whitespace is the space. *)
Lemma titleCase_spaces (value : str) (c : char) :
  In c (titleCase value) -> isSpace c = true -> c = ch " ".
Proof.
  unfold titleCase. intros I S. apply join_In in I.
  destruct I as [[<- | []] | [piece [P C]]]; [reflexivity |].
  apply in_map_iff in P. destruct P as [q [<- Q]].
  apply In_capitalize in C; [| exact S]. destruct C as [x [X E]].
  unfold reSpaces in Q.
  rewrite (split_plus_pieces isSpace _ _ _ Q X) in E. discriminate.
Qed.

Lemma taskOfLine_due (line v : str) :
  due (taskOfLine line) = Some v ->
  forall c, In c v -> isSpace c = true -> c = ch " ".
Proof.
  unfold taskOfLine. cbn [due].
  set (m := match exec reDueBy _ with Some m => Some m | None => _ end).
  destruct m as [[[i n] [d|]]|]; try discriminate.
  destruct (truthy d) eqn:T; [| discriminate].
  intros E. injection E as <-. apply titleCase_spaces.
Qed.

(** X19: the due date of a task, when there is one, is on one line: its
    only whitespace is the space. *)
Theorem extractTasks_due_one_line (content : str) (t : Task) (v : str) :
  In t (extractTasks content) -> due t = Some v ->
  forall c, In c v -> isSpace c = true -> c = ch " ".
Proof.
  intros I. apply extractTasks_In_line in I. destruct I as [line ->].
  apply taskOfLine_due.
Qed.

(* ================================================================== *)
(** ** The summary on one line *)

(** X6: the summary of a non-empty content has no line feed, with or
    without a thread history. *)
Theorem analyzeEmail_summary_one_line (content : str)
    (threadHistory persona : option str) :
  content <> [] ->
  ~ In nl (summary (analyzeEmail content threadHistory persona)) /\
  summary (analyzeEmail content threadHistory persona) <> [].
Proof.
  intros N. unfold analyzeEmail. cbn [summary].
  rewrite (summarize_nonempty content threadHistory N). split.
  - apply computedSummary_no_line_feed.
  - now apply computedSummary_nonempty.
Qed.

(* ================================================================== *)
(** ** The further properties on concrete requests *)

Lemma craftSubjectFromObjective_rules_witness :
  craftSubjectFromObjective (lit "Intro call and project UPDATE") (lit "Following up")
  = lit "Quick project update".
Proof.
  exact (proj2 (proj2 (proj2 (proj2 (proj2 (proj2
           (craftSubjectFromObjective_rules
              (lit "Intro call and project UPDATE") (lit "Following up")))))))
           (lit "Intro call and project ") (lit "UPDATE") [] eq_refl eq_refl).
Defined.

Lemma composeEmail_cadence_witness :
  Infix ([bullet] ++ lit " Key details are included in the attachments.")
    (body (composeEmail (lit "Dana") (lit "Plan the offsite") warm
             [lit "  "; []] None None)).
Proof.
  exact (proj2 (composeEmail_cadence (lit "Dana") (lit "Plan the offsite") warm
                  [lit "  "; []] None None) eq_refl).
Defined.

Lemma composeEmail_optional_fields_witness :
  Infix ([nl; nl] ++ lit "Next up: " ++ lit "Reply by Friday" ++ lit "." ++ [nl; nl]
           ++ tpl_closing (FOLLOW_UP_TEMPLATES assertive))
    (body (composeEmail [] (lit "Close the audit") assertive [lit "- send the files"]
             (Some (lit "reply by Friday")) (Some []))).
Proof.
  exact (proj2 (proj2
           (composeEmail_optional_fields [] (lit "Close the audit") assertive
              [lit "- send the files"] (Some (lit "reply by Friday")) (Some [])))
           (lit "reply by Friday") eq_refl
           (proj1 (truthy_true (lit "reply by Friday")) eq_refl)).
Defined.

Lemma analyzeEmail_summary_one_line_witness :
  ~ In nl (summary (analyzeEmail (lit "Hi." ++ [nl; nl] ++ lit "Call me.")
                      (Some (lit "earlier")) None)) /\
  summary (analyzeEmail (lit "Hi." ++ [nl; nl] ++ lit "Call me.")
             (Some (lit "earlier")) None) <> [].
Proof.
  apply (analyzeEmail_summary_one_line (lit "Hi." ++ [nl; nl] ++ lit "Call me.")).
  apply (proj1 (truthy_true _)). reflexivity.
Defined.

Lemma buildFollowUpRecommendation_rules_witness :
  buildFollowUpRecommendation low [] (lit "I AWAIT your reply")
  = lit "Schedule a reminder in 2 days to check for updates.".
Proof.
  apply (proj1 (proj2
           (buildFollowUpRecommendation_rules low [] (lit "I AWAIT your reply")))).
  - discriminate.
  - exists (lit "I "), (lit "AWAIT"), (lit " your reply"), (lit "await").
    split; [reflexivity |]. split; [simpl; auto |].
    split; [reflexivity | split; reflexivity].
Defined.

Lemma craftOpening_cases_witness :
  craftOpening (tpl_opening (FOLLOW_UP_TEMPLATES friendly)) (lit " Dana ") friendly
  = lit "Hi Dana, thanks a bunch for the message. I wanted to keep the momentum going.".
Proof.
  apply (proj2 (craftOpening_cases friendly (lit " Dana "))).
  intros A. apply trim_nil in A. vm_compute in A. discriminate A.
Defined.

Lemma extractTasks_owner_shape_witness :
  exists c w,
    lit "Dana" = c :: w /\ isUpperAZ c = true /\ w <> [] /\
    forallb isLowerAZ w = true.
Proof.
  apply (proj1
           (extractTasks_owner_shape (lit "- send the deck for Dana")
              (mkTask (lit "Send the deck for Dana") None (Some (lit "Dana")))
              (lit "Dana")
              (or_introl eq_refl) eq_refl)).
Defined.

Lemma extractTasks_due_one_line_witness :
  ~ In (ch "009") (lit "Next Week").
Proof.
  intros I.
  pose proof
    (extractTasks_due_one_line
       (lit "Please reply by next" ++ [ch "009"] ++ lit "week")
       (mkTask (lit "Please reply by next" ++ [ch "009"] ++ lit "week")
          (Some (lit "Next Week")) None)
       (lit "Next Week") (or_introl eq_refl) eq_refl (ch "009") I eq_refl) as E.
  discriminate E.
Defined.

Lemma POST_content_padding_witness :
  POST (withContent
          (mkPayload (lit "analyze") None None None [] [] professional [] None None)
          (Some (lit "  " ++ lit "Please call me" ++ [nl])))
  = POST (withContent
            (mkPayload (lit "analyze") None None None [] [] professional [] None None)
            (Some (lit "Please call me"))).
Proof.
  apply (POST_content_padding
           (mkPayload (lit "analyze") None None None [] [] professional [] None None)
           (lit "  ") (lit "Please call me") [nl]).
  - reflexivity.
  - repeat constructor.
  - repeat constructor.
Defined.

Lemma handleAnalyze_served_witness :
  handleAnalyze served (lit " Can you call me? ") [] (lit "Sam")
    (mkPanel None None false)
  = mkPanel
      (Some (AnalyzeBody
               (analyzeEmail (lit "Can you call me?") (Some []) (Some (lit "Sam")))))
      None false.
Proof.
  apply (proj1 (proj2
           (handleAnalyze_served (lit " Can you call me? ") [] (lit "Sam")
              (mkPanel None None false)))).
  intros A. apply trim_nil in A. vm_compute in A. discriminate A.
Defined.

Lemma handleCompose_served_witness :
  EndsWith
    (body (composeEmail (lit "Dana") (lit "Plan the offsite") warm
             [lit "book rooms"; lit "send invites"] (Some []) (Some [])))
    (tpl_closing (FOLLOW_UP_TEMPLATES warm) ++ [nl; nl]).
Proof.
  destruct (proj2
              (handleCompose_served (lit " Dana") (lit "Plan the offsite ") warm
                 (lit "book rooms" ++ [nl] ++ lit "send invites") (lit " ") []
                 (mkPanel None None false))) as [_ [_ E]].
  - intros A. apply trim_nil in A. vm_compute in A. discriminate A.
  - exact E.
Defined.
